(** * HyperLogLog: a shallow embedding of [hyperloglog.py]

    The estimator of [src/hyperloglog.py] is embedded method by method.

    - Python [int] is [Z]; the bit operations [&] and [>>] are [Z.land]
      and [Z.shiftr].
    - Python [float] is idealised as a real number ([R]): rounding is not
      modelled, the exceptions of float operations are ([ZeroDivisionError]
      of [/], the [ValueError] of [math.log] outside its domain).
    - A method is a computation in a state-and-exception monad: it receives
      the object (or the standard output) and gives back a result or a
      raised exception together with the object as the call left it.
    - Memory exhaustion is not modelled: an allocation always succeeds and
      a list may be of any length. The one statement that needs the
      registers to be fewer than the 2^256 digests says so.
    - [hashlib.sha256] is written out ([SHA256]), so that the embedding runs
      on concrete items. *)

From Stdlib Require Import ZArith Lia Reals Lra String Ascii DecimalString.
From stdpp Require Import base list.
From Equations Require Import Equations.

Local Open Scope Z_scope.

(** ** Exceptions and the method monad *)

Inductive exn : Type :=
  | AssertionError (msg : string)
  | IndexError
  | ValueError
  | ZeroDivisionError.

Inductive result (A : Type) : Type :=
  | Ok (a : A)
  | Raise (e : exn).
Arguments Ok {A} a.
Arguments Raise {A} e.

(** [M S A]: a computation over a mutable store [S] that returns an [A] or
    raises; the store is returned in both cases. *)
Definition M (S A : Type) : Type := S -> result A * S.

Definition ret {S A} (a : A) : M S A := fun s => (Ok a, s).
Definition raise {S A} (e : exn) : M S A := fun s => (Raise e, s).
Definition bind {S A B} (c : M S A) (k : A -> M S B) : M S B :=
  fun s =>
    match c s with
    | (Ok a, s') => k a s'
    | (Raise e, s') => (Raise e, s')
    end.
Definition get {S} : M S S := fun s => (Ok s, s).
Definition put {S} (s : S) : M S unit := fun _ => (Ok tt, s).
Definition lift {S A} (r : result A) : M S A := fun s => (r, s).

Declare Scope m_scope.
Delimit Scope m_scope with M.
Notation "x <- c ;; k" := (bind c (fun x => k))
  (at level 100, c at next level, right associativity) : m_scope.
Notation "c ;;; k" := (bind c (fun _ => k))
  (at level 100, right associativity) : m_scope.
Local Open Scope m_scope.

(** [assert cond, msg] *)
Definition py_assert {S} (cond : bool) (msg : string) : M S unit :=
  if cond then ret tt else raise (AssertionError msg).

Fixpoint mapM {S A B} (f : A -> M S B) (l : list A) : M S (list B) :=
  match l with
  | [] => ret []
  | a :: l' => b <- f a ;; bs <- mapM f l' ;; ret (b :: bs)
  end.

(** [for x in l: f(x)] *)
Fixpoint forM_ {S A} (l : list A) (f : A -> M S unit) : M S unit :=
  match l with
  | [] => ret tt
  | a :: l' => f a ;;; forM_ l' f
  end.

(** State left by a computation, and its outcome. *)
Definition exec {S A} (c : M S A) (s : S) : S := snd (c s).
Definition eval {S A} (c : M S A) (s : S) : result A := fst (c s).

(** ** Python primitives used by the class *)

(** [l[i]] on a list: a negative index counts from the end, anything out of
    range raises [IndexError]. *)
Definition py_index {A} (l : list A) (i : Z) : option nat :=
  let n := Z.of_nat (length l) in
  if (0 <=? i) && (i <? n) then Some (Z.to_nat i)
  else if (- n <=? i) && (i <? 0) then Some (Z.to_nat (n + i))
  else None.

Definition list_getitem {A} (l : list A) (i : Z) : result A :=
  match py_index l i with
  | Some k => match l !! k with Some x => Ok x | None => Raise IndexError end
  | None => Raise IndexError
  end.

Definition list_setitem {A} (l : list A) (i : Z) (x : A) : result (list A) :=
  match py_index l i with
  | Some k => Ok (<[k := x]> l)
  | None => Raise IndexError
  end.

(** [range(n)] *)
Definition range (n : Z) : list Z := seqZ 0 n.

(** [l.count(x)] *)
Fixpoint list_count (x : Z) (l : list Z) : Z :=
  match l with
  | [] => 0
  | y :: l' => (if y =? x then 1 else 0) + list_count x l'
  end.

(** [a / b] on floats (or on ints, true division). *)
Definition fdiv (a b : R) : result R :=
  if Req_dec_T b 0%R then Raise ZeroDivisionError else Ok (a / b)%R.

(** [math.log(x)]: a domain error unless [0 < x]. *)
Definition math_log (x : R) : result R :=
  if Rlt_dec 0%R x then Ok (ln x) else Raise ValueError.

(** [math.log2(n)] on an int, seen through the two ways the class uses it.
    Both raise [ValueError] unless [0 < n].
    [int(math.log2(n))]: the float logarithm is exact on powers of two, the
    only bucket counts [__init__] lets through, where it is [Z.log2 n]; on
    other counts it is taken to be the integer logarithm as well, and no
    statement below depends on its value there.
    [math.log2(n).is_integer()]: asked only together with [n < 128], where
    the logarithm is an integer exactly for the powers of two. *)
Definition int_log2 (n : Z) : result Z :=
  if n <=? 0 then Raise ValueError else Ok (Z.log2 n).

Definition log2_is_integer (n : Z) : result bool :=
  if n <=? 0 then Raise ValueError else Ok (n =? 2 ^ Z.log2 n).

(** [print(s)]: the standard output is the list of the lines printed. *)
Definition stdout : Type := list string.
Definition print (s : string) : M stdout unit := fun out => (Ok tt, out ++ [s]).

(** ** SHA-256 ([hashlib.sha256]), FIPS 180-4, on 32-bit words held in [Z] *)

Module SHA256.

Definition w32 (x : Z) : Z := x mod 2 ^ 32.
Definition add32 (x y : Z) : Z := w32 (x + y).
Definition rotr (n x : Z) : Z := Z.lor (x ≫ n) (w32 (x ≪ (32 - n))).
Definition Ch (x y z : Z) : Z := Z.lxor (Z.land x y) (Z.land (Z.lnot x) z).
Definition Maj (x y z : Z) : Z :=
  Z.lxor (Z.lxor (Z.land x y) (Z.land x z)) (Z.land y z).
Definition Sigma0 (x : Z) : Z := Z.lxor (Z.lxor (rotr 2 x) (rotr 13 x)) (rotr 22 x).
Definition Sigma1 (x : Z) : Z := Z.lxor (Z.lxor (rotr 6 x) (rotr 11 x)) (rotr 25 x).
Definition sigma0 (x : Z) : Z := Z.lxor (Z.lxor (rotr 7 x) (rotr 18 x)) (x ≫ 3).
Definition sigma1 (x : Z) : Z := Z.lxor (Z.lxor (rotr 17 x) (rotr 19 x)) (x ≫ 10).

(** The constants are defined as FIPS 180-4 derives them: the first 32 bits
    of the fractional parts of the square roots (initial hash value) and of
    the cube roots (round constants) of the first primes. *)
Definition is_prime (n : Z) : bool :=
  (1 <? n) && forallb (fun d => negb (n mod d =? 0)) (seqZ 2 (n - 2)).

Definition primes_upto (n : Z) : list Z := List.filter is_prime (seqZ 2 (n - 1)).

(** The integer cube root, one bit at a time from bit [bit - 1] down. *)
Fixpoint cbrt_bits (bit : nat) (n r : Z) : Z :=
  match bit with
  | O => r
  | S bit' =>
      let c := r + 2 ^ Z.of_nat bit' in
      cbrt_bits bit' n (if c ^ 3 <=? n then c else r)
  end.

Definition K : list Z :=
  Eval vm_compute in
    map (fun p => w32 (cbrt_bits 40 (p * 2 ^ 96) 0)) (primes_upto 311).

Definition H0 : list Z :=
  Eval vm_compute in
    map (fun p => w32 (Z.sqrt (p * 2 ^ 64))) (primes_upto 19).

Fixpoint be_bytes (n : nat) (x : Z) : list Z :=
  match n with
  | O => []
  | S n' => be_bytes n' (x ≫ 8) ++ [Z.land x 255]
  end.

(** Padding: the byte 0x80, zero bytes up to 56 modulo 64, then the length
    of the message in bits as 8 big-endian bytes. *)
Definition pad (msg : list Z) : list Z :=
  let len := Z.of_nat (length msg) in
  msg ++ [0x80] ++ replicate (Z.to_nat ((55 - len) mod 64)) 0
      ++ be_bytes 8 (8 * len).

Fixpoint be_words (n : nat) (bs : list Z) : list Z :=
  match n, bs with
  | S n', b0 :: b1 :: b2 :: b3 :: rest =>
      (b0 ≪ 24 + b1 ≪ 16 + b2 ≪ 8 + b3) :: be_words n' rest
  | _, _ => []
  end.

(** The message schedule beyond its first 16 words, from a window of the
    last 16. *)
Fixpoint schedule (n : nat) (win : list Z) : list Z :=
  match n with
  | O => []
  | S n' =>
      let w := add32 (add32 (sigma1 (nth 14 win 0)) (nth 9 win 0))
                     (add32 (sigma0 (nth 1 win 0)) (nth 0 win 0)) in
      w :: schedule n' (tail win ++ [w])
  end.

Definition round (st : list Z) (kw : Z * Z) : list Z :=
  match st with
  | [a; b; c; d; e; f; g; h] =>
      let t1 := add32 (add32 (add32 h (Sigma1 e)) (add32 (Ch e f g) (fst kw)))
                      (snd kw) in
      let t2 := add32 (Sigma0 a) (Maj a b c) in
      [add32 t1 t2; a; b; c; add32 d t1; e; f; g]
  | _ => st
  end.

Definition compress (hs block : list Z) : list Z :=
  let w16 := be_words 16 block in
  let ws := w16 ++ schedule 48 w16 in
  let out := fold_left round (combine K ws) hs in
  map (fun p => add32 (fst p) (snd p)) (combine hs out).

Fixpoint blocks (n : nat) (bs hs : list Z) : list Z :=
  match n with
  | O => hs
  | S n' => blocks n' (drop 64 bs) (compress hs (take 64 bs))
  end.

Definition digest (msg : list Z) : list Z :=
  let p := pad msg in
  blocks (length p / 64) p H0.

(** [int(hexdigest, 16)]: the eight words of the digest as one number,
    most significant word first. *)
Definition be_int (ws : list Z) : Z :=
  fold_left (fun acc w => acc * 2 ^ 32 + w) ws 0.

End SHA256.

(** An item is a Python [str]; it is held as the bytes of its UTF-8
    encoding ([item.encode("utf-8")]), one character of the Rocq string per
    byte. *)
Definition encode_utf8 (item : string) : list Z :=
  map (fun c => Z.of_N (N_of_ascii c)) (list_ascii_of_string item).

(** [int(hashlib.sha256(item.encode("utf-8")).hexdigest(), 16)] *)
Definition sha256_int (item : string) : Z :=
  SHA256.be_int (SHA256.digest (encode_utf8 item)).

(** ** The class [HyperLogLog] *)

Record HyperLogLog : Type := mkHLL {
  number_of_buckets : Z;
  buckets : list Z;
  alpha_m : R
}.

Definition set_buckets (bs : list Z) (self : HyperLogLog) : HyperLogLog :=
  mkHLL (number_of_buckets self) bs (alpha_m self).

Definition warning_text : string :=
  "Warning: Using a non-standard number of buckets. Consider using 16, 32, 64, or a power of 2 >= 128 for better accuracy.".

(** [HyperLogLog._compute_alpha_m]. The quotient [1.079 / n] is the real
    one: the [OverflowError] of a count too large to be a float (from
    about [2^1024]) and the rounding of floats are not modelled. A
    statement about the value returned by a direct call bounds the
    count. *)
Definition _compute_alpha_m (number_of_buckets : Z) : M stdout R :=
  is_int <- lift (log2_is_integer number_of_buckets) ;;
  (if negb is_int && (number_of_buckets <? 128)
   then print warning_text else ret tt) ;;;
  if number_of_buckets =? 16 then ret 0.673%R
  else if number_of_buckets =? 32 then ret 0.697%R
  else if number_of_buckets =? 64 then ret 0.709%R
  else
    q <- lift (fdiv 1.079 (IZR number_of_buckets)) ;;
    lift (fdiv 0.7213 (1 + q)).

Definition init_message_positive : string :=
  "Number of buckets should be greater than 0.".
Definition init_message_power : string :=
  "Number of buckets must be a power of 2.".

(** [HyperLogLog.__init__]: the object exists only if no assertion fails. *)
Definition __init__ (number_of_buckets : Z) : M stdout HyperLogLog :=
  py_assert (number_of_buckets >? 0) init_message_positive ;;;
  py_assert (Z.land number_of_buckets (number_of_buckets - 1) =? 0)
    init_message_power ;;;
  let buckets := replicate (Z.to_nat number_of_buckets) 0 in
  alpha <- _compute_alpha_m number_of_buckets ;;
  ret (mkHLL number_of_buckets buckets alpha).

(** The loop of [_count_leading_zeroes]: one call is one test of
    [while value > 0]; it recurses where the loop goes round. It terminates
    because [value >> 1 < value] for a positive [value]. *)
Equations? count_loop (value count : Z) : Z by wf (Z.to_nat value) lt :=
  count_loop value count with Z_gt_dec value 0 := {
    | right _ => count
    | left _ with Z.eq_dec (Z.land value 1) 1 := {
        | left _ => count
        | right _ => count_loop (value ≫ 1) (count + 1) } }.
Proof.
  rewrite Z.shiftr_div_pow2 by lia. change (2 ^ 1) with 2.
  apply Z2Nat.inj_lt; [apply Z.div_pos; lia | lia | apply Z.div_lt; lia].
Qed.

(** [HyperLogLog._count_leading_zeroes] *)
Definition _count_leading_zeroes (value : Z) : Z := count_loop value 1.

(** [HyperLogLog.add] *)
Definition add (item : string) : M HyperLogLog unit :=
  let hash_value := sha256_int item in
  self <- get ;;
  let bucket_index := Z.land hash_value (number_of_buckets self - 1) in
  shift <- lift (int_log2 (number_of_buckets self)) ;;
  let remaining_hash := hash_value ≫ shift in
  let leading_zeroes := _count_leading_zeroes remaining_hash in
  old <- lift (list_getitem (buckets self) bucket_index) ;;
  new_buckets <- lift (list_setitem (buckets self) bucket_index
                         (Z.max old leading_zeroes)) ;;
  put (set_buckets new_buckets self).

(** [sum(2 ** -register for register in buckets)]: the sum starts from 0 and
    adds from the left. [2 ** -register] is the real power of two, which is
    the float of the code for the registers from 0 to 1074 (a register
    stays below 257 on an estimator built through the methods); beyond,
    the code's power underflows to 0.0, and on negative registers it is an
    int that may be too large for the float division. *)
Definition harmonic_sum (buckets : list Z) : R :=
  fold_left (fun acc register => (acc + powerRZ 2 (- register))%R) buckets 0%R.

(** [HyperLogLog.estimate] *)
Definition estimate : M HyperLogLog R :=
  self <- get ;;
  let m := number_of_buckets self in
  let harmonic_mean := harmonic_sum (buckets self) in
  raw_estimate <- lift (fdiv (alpha_m self * IZR (m ^ 2)) harmonic_mean) ;;
  raw_estimate <-
    (if Rle_dec raw_estimate (2.5 * IZR m) then
       let zero_buckets := list_count 0 (buckets self) in
       if zero_buckets >? 0 then
         q <- lift (fdiv (IZR m) (IZR zero_buckets)) ;;
         l <- lift (math_log q) ;;
         ret (IZR m * l)%R
       else ret raw_estimate
     else ret raw_estimate) ;;
  if Rgt_dec raw_estimate (IZR (1 ≪ 32) / 30.0) then
    l <- lift (math_log (1.0 - raw_estimate / IZR (1 ≪ 32))) ;;
    ret (- IZR (1 ≪ 32) * l)%R
  else ret raw_estimate.

Definition merge_message : string :=
  "Cannot merge HyperLogLogs with different numbers of buckets.".

(** [HyperLogLog.merge]: the comprehension builds the new list from both
    register lists; [self.buckets] is assigned once it is complete. *)
Definition merge (other : HyperLogLog) : M HyperLogLog unit :=
  self <- get ;;
  py_assert (number_of_buckets self =? number_of_buckets other)
    merge_message ;;;
  new_buckets <-
    mapM (fun i =>
            a <- lift (list_getitem (buckets self) i) ;;
            b <- lift (list_getitem (buckets other) i) ;;
            ret (Z.max a b))
         (range (number_of_buckets self)) ;;
  put (set_buckets new_buckets self).

(** The caller's loop [for item in items: hll.add(item)]. *)
Definition add_all (items : list string) : M HyperLogLog unit :=
  forM_ items add.

(** ** Predicates used in the statements *)

(** [n] is a positive power of two. *)
Definition power_of_two (n : Z) : Prop := exists k : Z, 0 <= k /\ n = 2 ^ k.

(** The invariant [len(registers) == bucket_count]. *)
Definition shape (self : HyperLogLog) : Prop :=
  Z.of_nat (length (buckets self)) = number_of_buckets self.

(** Register-wise order: no register of [before] is larger than the same
    register of [after]. *)
Definition registers_le (before after : list Z) : Prop :=
  forall (i : nat) (x y : Z),
    before !! i = Some x -> after !! i = Some y -> x <= y.

(** An estimator as the constructor and the mutating methods leave it: a
    bucket count that is a power of two, as many registers, none negative. *)
Record constructed (self : HyperLogLog) : Prop := mkConstructed {
  constructed_pow2 : power_of_two (number_of_buckets self);
  constructed_shape : shape self;
  constructed_nonneg : Forall (fun r => 0 <= r) (buckets self)
}.

(** The states an estimator of [m] buckets goes through: built by
    [__init__], then any number of [add] and of [merge] with an estimator
    that was itself obtained this way with the same [m]. *)
Inductive reachable (m : Z) : HyperLogLog -> Prop :=
  | reach_init out self :
      eval (__init__ m) out = Ok self -> reachable m self
  | reach_add item self :
      reachable m self -> reachable m (exec (add item) self)
  | reach_merge other self :
      reachable m self -> reachable m other ->
      reachable m (exec (merge other) self).

(** [rank] is the position, counted from 1 at the right, of the lowest set
    bit of [value]. *)
Definition lowest_set_bit (value rank : Z) : Prop :=
  1 <= rank /\ Z.testbit value (rank - 1) = true /\
  forall j, 0 <= j < rank - 1 -> Z.testbit value j = false.

(** The rank [add] computes for [item] once the shift is known. *)
Definition rank_of (item : string) (shift : Z) : Z :=
  _count_leading_zeroes (sha256_int item ≫ shift).

(** One element of the comprehension of [merge]. *)
Definition max_at (l1 l2 : list Z) (i : Z) : M HyperLogLog Z :=
  a <- lift (list_getitem l1 i) ;;
  b <- lift (list_getitem l2 i) ;;
  ret (Z.max a b).

(** ** The first two steps of the estimate, as the specification words
       them (section 4.3) *)

Module Spec.
Local Open Scope R_scope.

(** Step 1: [raw = alpha * bucket_count^2 / sum(2^-registers[i])]. *)
Definition harmonic_denominator (registers : list Z) : R :=
  fold_right (fun register acc => powerRZ 2 (- register) + acc) 0 registers.

Definition raw (alpha : R) (bucket_count : Z) (registers : list Z) : R :=
  alpha * (IZR bucket_count) ^ 2 / harmonic_denominator registers.

Definition zero_buckets (registers : list Z) : Z :=
  Z.of_nat (length (filter (fun r => r = 0%Z) registers)).

(** Step 2: linear counting when [raw <= 2.5 * bucket_count] and some
    register is still 0; the raw estimate otherwise. *)
Definition small_range (raw : R) (bucket_count : Z) (registers : list Z) : R :=
  if Rle_dec raw (2.5 * IZR bucket_count) then
    if Z_lt_dec 0 (zero_buckets registers) then
      IZR bucket_count * ln (IZR bucket_count / IZR (zero_buckets registers))
    else raw
  else raw.

Definition corrected (self : HyperLogLog) : R :=
  small_range (raw (alpha_m self) (number_of_buckets self) (buckets self))
              (number_of_buckets self) (buckets self).

End Spec.

(** The last step of [estimate] as the source runs it (its second [if]),
    on the estimate [e] that the first two steps give: above [2^32 / 30]
    it calls [math.log] on [1 - e / 2^32], which raises outside its
    domain. *)
Definition large_range_step (e : R) : result R :=
  if Rlt_dec (2 ^ 32 / 30) e then
    match math_log (1 - e / 2 ^ 32) with
    | Ok l => Ok (- (2 ^ 32) * l)%R
    | Raise err => Raise err
    end
  else Ok e.

(** The outcome of [estimate], read off its three steps. *)
Definition estimate_steps (self : HyperLogLog) : result R :=
  large_range_step (Spec.corrected self).

Module SHA256Facts.
Import SHA256.

Definition words8 (hs : list Z) : Prop :=
  length hs = 8%nat /\ Forall (fun w => 0 <= w < 2 ^ 32) hs.

End SHA256Facts.

(** A computation that reads the store and leaves it as it was. *)
Definition read_only {S A} (c : M S A) : Prop := forall s, snd (c s) = s.

(** The object after [add item]. *)
Definition added (self : HyperLogLog) (item : string) : HyperLogLog :=
  exec (add item) self.

(** Every register is between 0 and [w]. *)
Definition bounded (w : Z) (self : HyperLogLog) : Prop :=
  Forall (fun r => 0 <= r <= w) (buckets self).

(** The value [_compute_alpha_m] returns, without its warning. *)
Definition alpha_of (n : Z) : R :=
  if n =? 16 then 0.673%R
  else if n =? 32 then 0.697%R
  else if n =? 64 then 0.709%R
  else (0.7213 / (1 + 1.079 / IZR n))%R.

(** ** The rest of the module: [__len__] and the example run *)

(** [int(x)] on a float: the fractional part is dropped, towards zero. *)
Definition py_int (x : R) : Z :=
  if Rle_dec 0 x then Int_part x else - Int_part (- x).

(** [HyperLogLog.__len__] *)
Definition __len__ : M HyperLogLog Z :=
  v <- estimate ;; ret (py_int v).

(** The builtin [len(obj)]: [obj.__len__()], refused with [ValueError] when
    it is negative. (That it fits an index is not checked here, like the
    other size limits.) *)
Definition py_len : M HyperLogLog Z :=
  n <- __len__ ;; if n <? 0 then raise ValueError else ret n.

(** [str(n)] on an int. *)
Definition str (n : Z) : string := NilZero.string_of_int (Z.to_int n).

(** [print(a, b)] writes both, separated by a space. *)
Definition print2 (a b : string) : M stdout unit :=
  print (a ++ " " ++ b)%string.

(** A statement [obj.method(...)] of a script: the method runs on the
    object a variable holds; the script goes on with the value returned and
    the object as the method left it, or stops at the exception. *)
Definition call {A} (c : M HyperLogLog A) (obj : HyperLogLog)
  : M stdout (A * HyperLogLog) :=
  fun out =>
    match c obj with
    | (Ok a, obj') => (Ok (a, obj'), out)
    | (Raise e, _) => (Raise e, out)
    end.

(** The block under [if __name__ == "__main__"]. *)
Definition main : M stdout unit :=
  hll <- __init__ 16 ;;
  r <- call (add "hello") hll ;;
  r <- call (add "world") (snd r) ;;
  r <- call (add "hello") (snd r) ;;
  r <- call py_len (snd r) ;;
  print2 "Estimated Cardinality:" (str (fst r)).

(** The estimator the example run reports on. *)
Definition example_state : HyperLogLog :=
  mkHLL 16 [0; 0; 0; 0; 2; 0; 0; 2; 0; 0; 0; 0; 0; 0; 0; 0] 0.673%R.

(** ** Predicates of the further statements *)

(** The bucket [add] routes [item] to, among [m] buckets. *)
Definition bucket_of (m : Z) (item : string) : nat :=
  Z.to_nat (Z.land (sha256_int item) (m - 1)).

(** The largest rank among the items routed to bucket [i]; 0 if there is
    none. *)
Definition max_rank (m : Z) (i : nat) (items : list string) : Z :=
  foldr Z.max 0
    ((fun item => rank_of item (Z.log2 m))
       <$> filter (fun item => bucket_of m item = i) items).

(** * Properties *)

(** ** The digest is a 256-bit number *)

Module SHA256Lemmas.
Import SHA256 SHA256Facts.

Lemma add32_range x y : 0 <= add32 x y < 2 ^ 32.
Proof. unfold add32, w32. apply Z.mod_pos_bound. lia. Qed.

Lemma round_length st kw : length st = 8%nat -> length (round st kw) = 8%nat.
Proof.
  intros Hl. do 9 (destruct st as [|? st]; try discriminate Hl).
  reflexivity.
Qed.

Lemma rounds_length kws : forall st,
  length st = 8%nat -> length (fold_left round kws st) = 8%nat.
Proof.
  induction kws as [|kw kws IH]; intros st Hl; simpl; [exact Hl|].
  apply IH, round_length, Hl.
Qed.

Lemma compress_words8 hs block : words8 hs -> words8 (compress hs block).
Proof.
  intros [Hl _]. unfold compress, words8. split.
  - rewrite length_map, length_combine, rounds_length by exact Hl. lia.
  - apply Forall_map, Forall_forall. intros p _. apply add32_range.
Qed.

Lemma blocks_words8 n : forall bs hs, words8 hs -> words8 (blocks n bs hs).
Proof.
  induction n as [|n IH]; intros bs hs Hw; simpl; [exact Hw|].
  apply IH, compress_words8, Hw.
Qed.

Lemma H0_words8 : words8 H0.
Proof.
  split; [reflexivity|]. unfold H0. repeat constructor; lia.
Qed.

Lemma be_int_range hs : words8 hs -> 0 <= be_int hs < 2 ^ 256.
Proof.
  intros [Hl Hr]. do 9 (destruct hs as [|? hs]; try discriminate Hl).
  repeat match goal with
         | H : Forall _ (_ :: _) |- _ => apply Forall_cons in H; destruct H
         end.
  unfold be_int. simpl fold_left.
  change (2 ^ 256) with
    (2 ^ 32 * 2 ^ 32 * 2 ^ 32 * 2 ^ 32 * 2 ^ 32 * 2 ^ 32 * 2 ^ 32 * 2 ^ 32).
  nia.
Qed.

End SHA256Lemmas.

Lemma sha256_int_range (item : string) : 0 <= sha256_int item < 2 ^ 256.
Proof.
  unfold sha256_int, SHA256.digest.
  apply SHA256Lemmas.be_int_range, SHA256Lemmas.blocks_words8,
    SHA256Lemmas.H0_words8.
Qed.

(** The derived constants, at both ends of each table. *)
Example sha256_constants :
  length SHA256.K = 64%nat /\
  head SHA256.K = Some 0x428a2f98 /\ last SHA256.K = Some 0xc67178f2 /\
  head SHA256.H0 = Some 0x6a09e667 /\ last SHA256.H0 = Some 0x5be0cd19.
Proof. vm_compute. repeat split. Qed.

(** Known digests (FIPS 180-4 test vectors and the items of the example). *)
Example sha256_abc :
  sha256_int "abc"
  = 0xba7816bf8f01cfea414140de5dae2223b00361a396177a9cb410ff61f20015ad.
Proof. vm_compute. reflexivity. Qed.

Example sha256_empty :
  sha256_int ""
  = 0xe3b0c44298fc1c149afbf4c8996fb92427ae41e4649b934ca495991b7852b855.
Proof. vm_compute. reflexivity. Qed.

Example sha256_hello :
  sha256_int "hello"
  = 0x2cf24dba5fb0a30e26e83b2ac5b9e29e1b161e5c1fa7425e73043362938b9824.
Proof. vm_compute. reflexivity. Qed.

Example sha256_world :
  sha256_int "world"
  = 0x486ea46224d1bb4fb680f34f7c9ad96a8f24ec88be73ea8e5a6c65260e9cb8a7.
Proof. vm_compute. reflexivity. Qed.

(** ** The rank loop *)

Section Rank.

(** One turn of [while value > 0]. *)
Lemma count_loop_turn (value count : Z) :
  count_loop value count =
    if value >? 0 then
      if Z.land value 1 =? 1 then count
      else count_loop (value ≫ 1) (count + 1)
    else count.
Proof.
  rewrite count_loop_equation_1. unfold count_loop_unfold_clause_1.
  destruct (Z_gt_dec value 0) as [Hpos|Hneg].
  - unfold count_loop_unfold_clause_1_clause_2.
    destruct (Z.eq_dec (Z.land value 1) 1) as [Hodd|Heven].
    + rewrite (proj2 (Z.gtb_gt _ _)) by lia. now rewrite Hodd.
    + rewrite (proj2 (Z.gtb_gt _ _)) by lia.
      destruct (Z.eqb_spec (Z.land value 1) 1); [contradiction|reflexivity].
  - destruct (Z.gtb_spec value 0); [lia|reflexivity].
Qed.

Lemma count_loop_nonpos (value count : Z) :
  value <= 0 -> count_loop value count = count.
Proof.
  intros H. rewrite count_loop_turn.
  destruct (Z.gtb_spec value 0); [lia|reflexivity].
Qed.

Lemma land_1_testbit (value : Z) :
  Z.land value 1 = (if Z.testbit value 0 then 1 else 0).
Proof.
  change 1 with (Z.ones 1) at 1. rewrite Z.land_ones by lia.
  change (2 ^ 1) with 2. rewrite <- Z.bit0_mod.
  now destruct (Z.testbit value 0).
Qed.

(** The loop adds to [count] the number of zero bits below the lowest set
    bit of a positive [value]. *)
Lemma count_loop_spec (value : Z) : forall count,
  0 < value ->
  let c := count_loop value count - count in
  0 <= c /\ Z.testbit value c = true /\
  forall j, 0 <= j < c -> Z.testbit value j = false.
Proof.
  induction (Z.lt_wf 0 value) as [value _ IH].
  intros count Hpos. cbv zeta.
  rewrite count_loop_turn.
  rewrite (proj2 (Z.gtb_gt _ _)) by lia.
  rewrite land_1_testbit.
  destruct (Z.testbit value 0) eqn:Hbit0; simpl.
  - rewrite Z.sub_diag. repeat split; [lia|exact Hbit0|lia].
  - assert (Hhalf : 0 < value ≫ 1 < value).
    { rewrite Z.shiftr_div_pow2 by lia. change (2 ^ 1) with 2.
      assert (value <> 1) by (intros ->; discriminate Hbit0).
      split; [apply Z.div_str_pos; lia | apply Z.div_lt; lia]. }
    destruct (IH (value ≫ 1) ltac:(lia) (count + 1) ltac:(lia))
      as (Hc & Hset & Hlow). cbv zeta in *.
    set (c' := count_loop (value ≫ 1) (count + 1) - (count + 1)) in *.
    replace (count_loop (value ≫ 1) (count + 1) - count) with (c' + 1) by lia.
    repeat split.
    + lia.
    + rewrite Z.shiftr_spec in Hset by lia. exact Hset.
    + intros j Hj. destruct (Z.eq_dec j 0) as [->|Hne]; [exact Hbit0|].
      specialize (Hlow (j - 1) ltac:(lia)).
      rewrite Z.shiftr_spec in Hlow by lia.
      replace (j - 1 + 1) with j in Hlow by lia. exact Hlow.
Qed.

Lemma count_leading_zeroes_zero : _count_leading_zeroes 0 = 1.
Proof. unfold _count_leading_zeroes. apply count_loop_nonpos. lia. Qed.

Lemma count_leading_zeroes_lowest (value : Z) :
  0 < value -> lowest_set_bit value (_count_leading_zeroes value).
Proof.
  intros Hpos. destruct (count_loop_spec value 1 Hpos) as (Hc & Hset & Hlow).
  unfold lowest_set_bit, _count_leading_zeroes. repeat split.
  - lia.
  - exact Hset.
  - exact Hlow.
Qed.

Lemma count_leading_zeroes_pos (value : Z) : 1 <= _count_leading_zeroes value.
Proof.
  destruct (Z_lt_le_dec 0 value) as [Hpos|Hle].
  - apply (count_leading_zeroes_lowest value Hpos).
  - unfold _count_leading_zeroes. rewrite count_loop_nonpos; lia.
Qed.

(** A positive value below [2^width] has its lowest set bit among the
    first [width] positions. *)
Lemma count_leading_zeroes_width (value width : Z) :
  0 < value < 2 ^ width -> _count_leading_zeroes value <= width.
Proof.
  intros [Hpos Hlt].
  destruct (count_leading_zeroes_lowest value Hpos) as (H1 & Hset & _).
  assert (0 <= width).
  { destruct (Z_lt_le_dec width 0) as [Hneg|]; [|assumption].
    rewrite Z.pow_neg_r in Hlt by assumption. lia. }
  destruct (Z_lt_le_dec (Z.log2 value) (_count_leading_zeroes value - 1))
    as [Habove|Hle].
  - rewrite Z.bits_above_log2 in Hset by lia. discriminate.
  - pose proof (proj1 (Z.log2_lt_pow2 value width Hpos) Hlt). lia.
Qed.

End Rank.

(** ** Powers of two and the bucket mask *)

Section PowerOfTwo.

Lemma power_of_two_pos (n : Z) : power_of_two n -> 0 < n.
Proof. intros (k & Hk & ->). apply Z.pow_pos_nonneg; lia. Qed.

Lemma power_of_two_log2 (n : Z) : power_of_two n -> n = 2 ^ Z.log2 n.
Proof. intros (k & Hk & ->). now rewrite Z.log2_pow2. Qed.

(** The test of [__init__]: [n & (n - 1) == 0] singles out the powers of two
    among the positive integers. *)
Lemma land_pred_power_of_two (n : Z) :
  0 < n -> (Z.land n (n - 1) = 0 <-> power_of_two n).
Proof.
  intros Hpos. split.
  - intros Hland. exists (Z.log2 n). split; [apply Z.log2_nonneg|].
    destruct (Z.log2_spec n Hpos) as [Hlo Hhi].
    destruct (Z.eq_dec n (2 ^ Z.log2 n)) as [|Hne]; [assumption|exfalso].
    assert (Hlog : Z.log2 (n - 1) = Z.log2 n).
    { apply Z.log2_unique; [apply Z.log2_nonneg|].
      replace (Z.succ (Z.log2 n)) with (Z.log2 n + 1) in * by lia. lia. }
    assert (Hbit : Z.testbit (Z.land n (n - 1)) (Z.log2 n) = true).
    { rewrite Z.land_spec, Z.bit_log2 by lia.
      rewrite <- Hlog. rewrite Z.bit_log2; [reflexivity|].
      pose proof (Z.pow_pos_nonneg 2 (Z.log2 n) ltac:(lia) (Z.log2_nonneg n)).
      lia. }
    rewrite Hland, Z.bits_0 in Hbit. discriminate.
  - intros (k & Hk & ->).
    replace (2 ^ k - 1) with (Z.ones k) by (rewrite Z.ones_equiv; lia).
    rewrite Z.land_ones by lia. apply Z.mod_same.
    pose proof (Z.pow_pos_nonneg 2 k ltac:(lia) Hk). lia.
Qed.

(** [h & (2^k - 1)] is [h mod 2^k]: an index into [2^k] buckets. *)
Lemma bucket_index_range (h n : Z) :
  power_of_two n -> 0 <= Z.land h (n - 1) < n.
Proof.
  intros (k & Hk & ->).
  replace (2 ^ k - 1) with (Z.ones k) by (rewrite Z.ones_equiv; lia).
  rewrite Z.land_ones by lia. apply Z.mod_pos_bound.
  apply Z.pow_pos_nonneg; lia.
Qed.

End PowerOfTwo.

(** ** What one call of each method does *)

Ltac run_m :=
  unfold bind, ret, raise, get, put, lift, py_assert, exec, eval in *;
  simpl in *.

Section Monad.
Context {S A B : Type}.

Lemma bind_run (c : M S A) (k : A -> M S B) (s : S) :
  bind c k s =
    match c s with
    | (Ok a, s') => k a s'
    | (Raise e, s') => (Raise e, s')
    end.
Proof. reflexivity. Qed.

Lemma bind_get (k : S -> M S B) (s : S) : bind get k s = k s s.
Proof. reflexivity. Qed.

Lemma bind_lift (r : result A) (k : A -> M S B) (s : S) :
  bind (lift r) k s =
    match r with Ok a => k a s | Raise e => (Raise e, s) end.
Proof. unfold bind, lift. now destruct r. Qed.

Lemma bind_assert (cond : bool) (msg : string) (k : unit -> M S B) (s : S) :
  bind (py_assert cond msg) k s =
    if cond then k tt s else (Raise (AssertionError msg), s).
Proof. now destruct cond. Qed.

End Monad.

Section Lists.
Context {A : Type}.
Implicit Types (l : list A) (i : Z) (k : nat).

Lemma py_index_lt l i k : py_index l i = Some k -> (k < length l)%nat.
Proof.
  unfold py_index. cbv zeta.
  destruct (Z.leb_spec 0 i), (Z.ltb_spec i (Z.of_nat (length l))),
    (Z.leb_spec (- Z.of_nat (length l)) i), (Z.ltb_spec i 0); simpl;
    intros [= <-]; lia.
Qed.

Lemma py_index_in_range l i :
  0 <= i < Z.of_nat (length l) -> py_index l i = Some (Z.to_nat i).
Proof.
  intros [H1 H2]. unfold py_index. cbv zeta.
  rewrite (proj2 (Z.leb_le _ _) H1), (proj2 (Z.ltb_lt _ _) H2). reflexivity.
Qed.

Lemma py_index_length l l' i :
  length l = length l' -> py_index l' i = py_index l i.
Proof. intros Hl. unfold py_index. now rewrite Hl. Qed.

Lemma list_getitem_in_range l i :
  0 <= i < Z.of_nat (length l) ->
  exists x, l !! Z.to_nat i = Some x /\ list_getitem l i = Ok x.
Proof.
  intros Hi. unfold list_getitem. rewrite py_index_in_range by exact Hi.
  destruct (lookup_lt_is_Some_2 l (Z.to_nat i) ltac:(lia)) as [x Hx].
  exists x. now rewrite Hx.
Qed.

End Lists.

Section Add.
Variable item : string.
Variable self : HyperLogLog.

Let h := sha256_int item.
Let n := number_of_buckets self.
Let bs := buckets self.

(** [add] either raises and leaves the object alone, or overwrites exactly
    one register with the maximum of its old value and the rank. *)
Lemma add_run :
  add item self =
    match int_log2 n with
    | Raise e => (Raise e, self)
    | Ok shift =>
        match py_index bs (Z.land h (n - 1)) with
        | None => (Raise IndexError, self)
        | Some k =>
            match bs !! k with
            | None => (Raise IndexError, self)
            | Some old =>
                (Ok tt, set_buckets (<[k := Z.max old (rank_of item shift)]> bs) self)
            end
        end
    end.
Proof.
  unfold add, rank_of. subst h n bs. run_m.
  destruct (int_log2 (number_of_buckets self)) as [shift|e]; [|reflexivity].
  unfold list_getitem, list_setitem.
  destruct (py_index _ _) as [k|]; [|reflexivity].
  destruct (buckets self !! k); reflexivity.
Qed.

Lemma add_cases :
  (exists e, add item self = (Raise e, self)) \/
  (exists shift k old,
     int_log2 n = Ok shift /\
     py_index bs (Z.land h (n - 1)) = Some k /\
     bs !! k = Some old /\
     add item self =
       (Ok tt, set_buckets (<[k := Z.max old (rank_of item shift)]> bs) self)).
Proof.
  rewrite add_run.
  destruct (int_log2 n) as [shift|e]; [|left; eauto].
  destruct (py_index bs _) as [k|] eqn:Hk; [|left; eauto].
  destruct (bs !! k) as [old|] eqn:Hold; [|left; eauto].
  right. exists shift, k, old. auto.
Qed.

(** On an estimator with a power-of-two bucket count and as many registers,
    [add] succeeds: the bucket is [h mod n], the shift is [log2 n]. *)
Lemma add_constructed :
  power_of_two n -> shape self ->
  exists old,
    bs !! Z.to_nat (Z.land h (n - 1)) = Some old /\
    add item self =
      (Ok tt,
       set_buckets (<[Z.to_nat (Z.land h (n - 1)) :=
                       Z.max old (rank_of item (Z.log2 n))]> bs) self).
Proof.
  intros Hpow Hshape.
  pose proof (bucket_index_range h n Hpow) as Hidx.
  pose proof (power_of_two_pos n Hpow) as Hpos.
  unfold shape in Hshape. fold n bs in Hshape.
  destruct (list_getitem_in_range bs (Z.land h (n - 1)) ltac:(lia))
    as (old & Hold & _).
  exists old. split; [exact Hold|].
  rewrite add_run. unfold int_log2.
  destruct (Z.leb_spec n 0); [lia|].
  rewrite py_index_in_range by lia. now rewrite Hold.
Qed.

End Add.

Section Merge.
Variables self other : HyperLogLog.

Lemma mapM_state {S X Y} (f : X -> M S Y) (l : list X) :
  (forall x s, snd (f x s) = s) -> forall s, snd (mapM f l s) = s.
Proof.
  intros Hf. induction l as [|x l IH]; intros s; simpl; [reflexivity|].
  unfold bind. specialize (Hf x s).
  destruct (f x s) as [[y|e] s1]; simpl in *; subst s1; [|reflexivity].
  specialize (IH s). destruct (mapM f l s) as [[ys|e] s2]; simpl in *;
    subst s2; reflexivity.
Qed.

Lemma max_at_state l1 l2 i (s : HyperLogLog) : snd (max_at l1 l2 i s) = s.
Proof.
  unfold max_at. rewrite bind_lift.
  destruct (list_getitem l1 i); [|reflexivity].
  rewrite bind_lift. destruct (list_getitem l2 i); reflexivity.
Qed.

Lemma merge_run :
  merge other self =
    if number_of_buckets self =? number_of_buckets other then
      match mapM (max_at (buckets self) (buckets other))
                 (range (number_of_buckets self)) self with
      | (Ok new_buckets, _) => (Ok tt, set_buckets new_buckets self)
      | (Raise e, _) => (Raise e, self)
      end
    else (Raise (AssertionError merge_message), self).
Proof.
  unfold merge. rewrite bind_get, bind_assert.
  destruct (number_of_buckets self =? number_of_buckets other);
    [|reflexivity].
  rewrite bind_run.
  change (mapM _ (range (number_of_buckets self)) self)
    with (mapM (max_at (buckets self) (buckets other))
            (range (number_of_buckets self)) self).
  pose proof (mapM_state (max_at (buckets self) (buckets other))
                (range (number_of_buckets self))
                (max_at_state _ _) self) as Hs.
  destruct (mapM _ _ self) as [[bs'|e] s']; simpl in Hs; subst s'; reflexivity.
Qed.

(** The comprehension over [range(n)], from index [k] on, when both lists
    have [n] entries. *)
Lemma mapM_max_at (l1 l2 : list Z) (s : HyperLogLog) : forall (j k : nat),
  (k + j)%nat = length l1 -> length l1 = length l2 ->
  mapM (max_at l1 l2) (seqZ (Z.of_nat k) (Z.of_nat j)) s
  = (Ok (zip_with Z.max (drop k l1) (drop k l2)), s).
Proof.
  induction j as [|j IH]; intros k Hk Hlen.
  - simpl. rewrite !drop_ge by lia. reflexivity.
  - rewrite seqZ_cons by lia.
    replace (Z.succ (Z.of_nat k)) with (Z.of_nat (S k)) by lia.
    replace (Z.pred (Z.of_nat (S j))) with (Z.of_nat j) by lia.
    cbn [mapM].
    destruct (list_getitem_in_range l1 (Z.of_nat k) ltac:(lia))
      as (a & Ha & Hga).
    destruct (list_getitem_in_range l2 (Z.of_nat k) ltac:(lia))
      as (b & Hb & Hgb).
    rewrite Nat2Z.id in Ha, Hb.
    rewrite bind_run. unfold max_at at 1.
    rewrite bind_lift, Hga, bind_lift, Hgb. unfold ret at 1.
    rewrite bind_run, (IH (S k)) by lia. unfold ret.
    rewrite (drop_S l1 a k Ha), (drop_S l2 b k Hb). reflexivity.
Qed.

Lemma merge_mismatch :
  number_of_buckets self <> number_of_buckets other ->
  merge other self = (Raise (AssertionError merge_message), self).
Proof.
  intros Hne. rewrite merge_run.
  destruct (Z.eqb_spec (number_of_buckets self) (number_of_buckets other));
    [contradiction|reflexivity].
Qed.

Lemma merge_same_shape :
  shape self -> shape other ->
  number_of_buckets self = number_of_buckets other ->
  merge other self =
    (Ok tt, set_buckets (zip_with Z.max (buckets self) (buckets other)) self).
Proof.
  unfold shape. intros Hs Ho Heq. rewrite merge_run.
  rewrite (proj2 (Z.eqb_eq _ _) Heq). unfold range.
  rewrite <- Hs.
  pose proof (mapM_max_at (buckets self) (buckets other) self
                (length (buckets self)) 0 ltac:(lia) ltac:(lia)) as Hm.
  rewrite !drop_0 in Hm. change (Z.of_nat 0) with 0 in Hm.
  now rewrite Hm.
Qed.

(** Whatever [merge] raises, it has not touched the object. *)
Lemma merge_raise_state e s' :
  merge other self = (Raise e, s') -> s' = self.
Proof.
  rewrite merge_run.
  destruct (_ =? _); [|now intros [= _ <-]].
  destruct (mapM _ _ self) as [[bs'|e'] s'']; [discriminate|now intros [= _ <-]].
Qed.

End Merge.

(** ** Construction *)

Section Construction.
Local Open Scope R_scope.

Lemma alpha_of_bounds (n : Z) : (0 < n)%Z -> 0 < alpha_of n <= 1.
Proof.
  intros Hpos. unfold alpha_of.
  destruct (n =? 16)%Z; [lra|].
  destruct (n =? 32)%Z; [lra|].
  destruct (n =? 64)%Z; [lra|].
  assert (Hn : 0 < IZR n) by (apply IZR_lt; exact Hpos).
  assert (Hq : 0 < 1.079 / IZR n) by (apply Rdiv_lt_0_compat; lra).
  assert (Hinv : 0 < / (1 + 1.079 / IZR n) <= 1).
  { split; [apply Rinv_0_lt_compat; lra|].
    rewrite <- Rinv_1 at 2. apply Rinv_le_contravar; lra. }
  unfold Rdiv at 1 3. nra.
Qed.

Lemma fdiv_ok (a b : R) : b <> 0 -> fdiv a b = Ok (a / b).
Proof. intros Hb. unfold fdiv. now destruct (Req_dec_T b 0). Qed.

Lemma math_log_ok (x : R) : 0 < x -> math_log x = Ok (ln x).
Proof. intros Hx. unfold math_log. now destruct (Rlt_dec 0 x). Qed.

Lemma math_log_domain (x : R) : x <= 0 -> math_log x = Raise ValueError.
Proof. intros Hx. unfold math_log. destruct (Rlt_dec 0 x); [lra|reflexivity]. Qed.

(** [_compute_alpha_m] on a positive count: the value, and the warning
    exactly for the counts below 128 that are not powers of two. *)
Lemma compute_alpha_run (n : Z) (out : stdout) :
  (0 < n)%Z ->
  _compute_alpha_m n out =
    (Ok (alpha_of n),
     if negb (n =? 2 ^ Z.log2 n)%Z && (n <? 128)%Z
     then (out ++ [warning_text])%list else out).
Proof.
  intros Hpos. unfold _compute_alpha_m, log2_is_integer, alpha_of.
  destruct (Z.leb_spec n 0); [lia|].
  rewrite bind_lift, bind_run.
  assert (Htail : forall out',
    ((if (n =? 16)%Z then ret 0.673
      else if (n =? 32)%Z then ret 0.697
      else if (n =? 64)%Z then ret 0.709
      else (q <- lift (fdiv 1.079 (IZR n)) ;; lift (fdiv 0.7213 (1 + q)))%M)
     : M stdout R) out'
    = (Ok (if (n =? 16)%Z then 0.673
           else if (n =? 32)%Z then 0.697
           else if (n =? 64)%Z then 0.709
           else 0.7213 / (1 + 1.079 / IZR n)), out')).
  { intros out'.
    destruct (n =? 16)%Z; [reflexivity|].
    destruct (n =? 32)%Z; [reflexivity|].
    destruct (n =? 64)%Z; [reflexivity|].
    assert (Hn : 0 < IZR n) by (apply IZR_lt; exact Hpos).
    assert (Hq : 0 < 1.079 / IZR n) by (apply Rdiv_lt_0_compat; lra).
    rewrite bind_lift, fdiv_ok by lra. unfold lift. rewrite fdiv_ok by lra.
    reflexivity. }
  destruct (negb (n =? 2 ^ Z.log2 n)%Z && (n <? 128)%Z);
    unfold print, ret; apply Htail.
Qed.

(** The three ways [__init__] ends. *)
Lemma init_run (n : Z) (out : stdout) :
  __init__ n out =
    if (n >? 0)%Z then
      if (Z.land n (n - 1) =? 0)%Z then
        (Ok (mkHLL n (replicate (Z.to_nat n) 0%Z) (alpha_of n)), out)
      else (Raise (AssertionError init_message_power), out)
    else (Raise (AssertionError init_message_positive), out).
Proof.
  unfold __init__. rewrite bind_assert.
  destruct (Z.gtb_spec n 0) as [Hpos|Hneg]; [|reflexivity].
  rewrite bind_assert.
  destruct (Z.eqb_spec (Z.land n (n - 1)) 0) as [Hland|Hland]; [|reflexivity].
  rewrite bind_run, compute_alpha_run by lia.
  apply land_pred_power_of_two in Hland; [|lia].
  rewrite <- (power_of_two_log2 n Hland), Z.eqb_refl. reflexivity.
Qed.

Lemma init_power_of_two (n : Z) (out : stdout) :
  power_of_two n ->
  __init__ n out =
    (Ok (mkHLL n (replicate (Z.to_nat n) 0%Z) (alpha_of n)), out).
Proof.
  intros Hpow. pose proof (power_of_two_pos n Hpow) as Hpos.
  rewrite init_run.
  destruct (Z.gtb_spec n 0); [|lia].
  rewrite (proj2 (land_pred_power_of_two n Hpos) Hpow). reflexivity.
Qed.

Lemma init_ok_inv (n : Z) (out : stdout) (self : HyperLogLog) :
  eval (__init__ n) out = Ok self ->
  power_of_two n /\
  self = mkHLL n (replicate (Z.to_nat n) 0%Z) (alpha_of n).
Proof.
  unfold eval. rewrite init_run.
  destruct (Z.gtb_spec n 0) as [Hpos|]; [|discriminate].
  destruct (Z.eqb_spec (Z.land n (n - 1)) 0) as [Hland|]; [|discriminate].
  simpl. intros [= <-]. split; [|reflexivity].
  apply land_pred_power_of_two; [lia|exact Hland].
Qed.

End Construction.

(** ** The estimate *)

Section Estimate.
Local Open Scope R_scope.

Lemma powerRZ_2_pos (z : Z) : 0 < powerRZ 2 z.
Proof. apply powerRZ_lt. lra. Qed.

Lemma harmonic_fold (bs : list Z) : forall acc : R,
  fold_left (fun acc register => acc + powerRZ 2 (- register)) bs acc
  = acc + Spec.harmonic_denominator bs.
Proof.
  induction bs as [|r bs IH]; intros acc; simpl; [lra|].
  rewrite IH. lra.
Qed.

Lemma harmonic_sum_spec (bs : list Z) :
  harmonic_sum bs = Spec.harmonic_denominator bs.
Proof. unfold harmonic_sum. rewrite harmonic_fold. lra. Qed.

Lemma harmonic_denominator_nonneg (bs : list Z) :
  0 <= Spec.harmonic_denominator bs.
Proof.
  induction bs as [|r bs IH]; simpl; [lra|].
  pose proof (powerRZ_2_pos (- r)). lra.
Qed.

Lemma harmonic_denominator_pos (bs : list Z) :
  bs <> [] -> 0 < Spec.harmonic_denominator bs.
Proof.
  destruct bs as [|r bs]; [congruence|]. intros _. simpl.
  pose proof (powerRZ_2_pos (- r)).
  pose proof (harmonic_denominator_nonneg bs). lra.
Qed.

Lemma list_count_spec (bs : list Z) : list_count 0 bs = Spec.zero_buckets bs.
Proof.
  unfold Spec.zero_buckets.
  induction bs as [|r bs IH]; [reflexivity|].
  simpl list_count. rewrite filter_cons.
  destruct (decide (r = 0%Z)) as [->|Hr].
  - simpl. rewrite IH. lia.
  - destruct (Z.eqb_spec r 0); [contradiction|]. rewrite IH. lia.
Qed.

Lemma zero_buckets_le_length (bs : list Z) :
  (0 <= Spec.zero_buckets bs <= Z.of_nat (length bs))%Z.
Proof.
  unfold Spec.zero_buckets.
  pose proof (length_filter (fun r => r = 0%Z) bs). lia.
Qed.

Lemma two_pow_32 : IZR (1 ≪ 32) = 2 ^ 32.
Proof. change (1 ≪ 32)%Z with 4294967296%Z. lra. Qed.

(** The source and the three steps of the specification compute the same
    thing on an estimator that has its registers. *)
Lemma estimate_run (self : HyperLogLog) :
  shape self -> (0 < number_of_buckets self)%Z ->
  estimate self = (estimate_steps self, self).
Proof.
  intros Hshape Hpos. unfold shape in Hshape.
  assert (Hne : buckets self <> []).
  { intros Hnil. rewrite Hnil in Hshape. simpl in Hshape. lia. }
  pose proof (harmonic_denominator_pos _ Hne) as Hden.
  assert (Hm : 0 < IZR (number_of_buckets self)) by (apply IZR_lt; exact Hpos).
  unfold estimate. rewrite bind_get. cbv zeta.
  rewrite harmonic_sum_spec, bind_lift, fdiv_ok by lra.
  rewrite bind_run.
  unfold estimate_steps, Spec.corrected, Spec.small_range, Spec.raw.
  replace (IZR (number_of_buckets self ^ 2))
    with (IZR (number_of_buckets self) ^ 2)
    by (rewrite pow_IZR; reflexivity).
  set (raw := alpha_m self * IZR (number_of_buckets self) ^ 2 /
              Spec.harmonic_denominator (buckets self)).
  rewrite list_count_spec.
  assert (Hstep3 : forall e : R,
    (if Rgt_dec e (IZR (1 ≪ 32) / 30.0)
     then (l <- lift (math_log (1.0 - e / IZR (1 ≪ 32))) ;;
           ret (- IZR (1 ≪ 32) * l))%M
     else ret e) self = (large_range_step e, self)).
  { intros e. unfold large_range_step. rewrite two_pow_32.
    destruct (Rgt_dec e (2 ^ 32 / 30.0)) as [Hgt|Hle];
      destruct (Rlt_dec (2 ^ 32 / 30) e) as [Hlt|Hnlt]; try lra.
    - rewrite bind_lift.
      replace (1.0 - e / 2 ^ 32) with (1 - e / 2 ^ 32) by lra.
      destruct (math_log (1 - e / 2 ^ 32)); reflexivity.
    - reflexivity. }
  destruct (Rle_dec raw (2.5 * IZR (number_of_buckets self))) as [Hsmall|Hbig].
  - destruct (Z_lt_dec 0 (Spec.zero_buckets (buckets self))) as [Hz|Hz].
    + rewrite (proj2 (Z.gtb_gt _ _)) by lia.
      assert (Hzr : 0 < IZR (Spec.zero_buckets (buckets self)))
        by (apply IZR_lt; exact Hz).
      rewrite bind_lift, fdiv_ok by lra.
      rewrite bind_lift, math_log_ok by (apply Rdiv_lt_0_compat; lra).
      unfold ret at 1. apply Hstep3.
    + destruct (Z.gtb_spec (Spec.zero_buckets (buckets self)) 0); [lia|].
      unfold ret at 1. apply Hstep3.
  - unfold ret at 1. apply Hstep3.
Qed.

Lemma large_range_below (e : R) : e <= 2 ^ 32 / 30 -> large_range_step e = Ok e.
Proof.
  intros He. unfold large_range_step.
  destruct (Rlt_dec (2 ^ 32 / 30) e); [lra|reflexivity].
Qed.

Lemma large_range_between (e : R) :
  2 ^ 32 / 30 < e < 2 ^ 32 ->
  large_range_step e = Ok (- (2 ^ 32) * ln (1 - e / 2 ^ 32)).
Proof.
  intros [Hlo Hhi]. unfold large_range_step.
  destruct (Rlt_dec (2 ^ 32 / 30) e); [|lra].
  rewrite math_log_ok by lra. reflexivity.
Qed.

(** From [2^32] on, the argument of the logarithm of step 3 is not
    positive. *)
Lemma large_range_domain (e : R) :
  2 ^ 32 <= e -> large_range_step e = Raise ValueError.
Proof.
  intros He. unfold large_range_step.
  destruct (Rlt_dec (2 ^ 32 / 30) e); [|lra].
  rewrite math_log_domain by lra. reflexivity.
Qed.

End Estimate.

(** ** Read-only computations *)

Section ReadOnly.
Context {S : Type}.

Lemma read_only_ret {A} (a : A) : read_only (ret a : M S A).
Proof. intros s. reflexivity. Qed.

Lemma read_only_lift {A} (r : result A) : read_only (lift r : M S A).
Proof. intros s. reflexivity. Qed.

Lemma read_only_bind {A B} (c : M S A) (k : A -> M S B) :
  read_only c -> (forall a, read_only (k a)) -> read_only (bind c k).
Proof.
  intros Hc Hk s. rewrite bind_run. specialize (Hc s).
  destruct (c s) as [[a|e] s']; simpl in Hc; subst s'; [apply Hk|reflexivity].
Qed.

Lemma read_only_get_bind {B} (k : S -> M S B) :
  (forall s, read_only (k s)) -> read_only (bind get k).
Proof. intros Hk s. rewrite bind_get. apply Hk. Qed.

Lemma read_only_if {A} (b : bool) (c1 c2 : M S A) :
  read_only c1 -> read_only c2 -> read_only (if b then c1 else c2).
Proof. now destruct b. Qed.

Lemma read_only_sumbool {A} {P Q : Prop} (b : {P} + {Q}) (c1 c2 : M S A) :
  read_only c1 -> read_only c2 -> read_only (if b then c1 else c2).
Proof. now destruct b. Qed.

End ReadOnly.

Create HintDb read_only.
#[export] Hint Resolve read_only_ret read_only_lift read_only_if
  read_only_sumbool : read_only.
#[export] Hint Extern 2 (read_only (bind get _)) =>
  apply read_only_get_bind; intros : read_only.
#[export] Hint Extern 3 (read_only (bind _ _)) =>
  apply read_only_bind; [|intros] : read_only.

Lemma estimate_read_only : read_only estimate.
Proof. unfold estimate. auto 20 with read_only. Qed.

(** ** Registers after [add] and [merge] *)

Section Registers.

Lemma list_getitem_nat {A} (l : list A) (k : nat) (x : A) :
  list_getitem l (Z.of_nat k) = Ok x -> l !! k = Some x.
Proof.
  unfold list_getitem, py_index. cbv zeta.
  destruct (Z.leb_spec 0 (Z.of_nat k)); [|lia].
  destruct (Z.ltb_spec (Z.of_nat k) (Z.of_nat (length l))); simpl.
  - rewrite Nat2Z.id. destruct (l !! k); [now intros [= ->]|discriminate].
  - destruct (Z.ltb_spec (Z.of_nat k) 0); [lia|].
    rewrite andb_false_r. discriminate.
Qed.

(** Each element the comprehension of [merge] produces is the maximum of
    the two registers of its index. *)
Lemma mapM_max_at_ok (l1 l2 : list Z) : forall (j k : nat) s s' bs',
  mapM (max_at l1 l2) (seqZ (Z.of_nat k) (Z.of_nat j)) s = (Ok bs', s') ->
  length bs' = j /\
  forall (i : nat) (y : Z), bs' !! i = Some y ->
    exists a b, l1 !! (k + i)%nat = Some a /\ l2 !! (k + i)%nat = Some b /\
                y = Z.max a b.
Proof.
  induction j as [|j IH]; intros k s s' bs'.
  - simpl. unfold ret. intros [= <- _]. split; [reflexivity|].
    intros i y Hi. rewrite lookup_nil in Hi. discriminate.
  - rewrite seqZ_cons by lia.
    replace (Z.succ (Z.of_nat k)) with (Z.of_nat (S k)) by lia.
    replace (Z.pred (Z.of_nat (S j))) with (Z.of_nat j) by lia.
    cbn [mapM]. rewrite bind_run. unfold max_at at 1. rewrite bind_lift.
    destruct (list_getitem l1 (Z.of_nat k)) as [a|] eqn:Ha; [|discriminate].
    rewrite bind_lift.
    destruct (list_getitem l2 (Z.of_nat k)) as [b|] eqn:Hb; [|discriminate].
    unfold ret at 1. rewrite bind_run.
    destruct (mapM (max_at l1 l2) _ s) as [[bs|e] s1] eqn:Hrest;
      [|discriminate].
    unfold ret. intros [= <- _].
    destruct (IH (S k) s s1 bs Hrest) as [Hlen Hrec].
    split; [simpl; congruence|].
    intros [|i] y Hi; simpl in Hi.
    + injection Hi as <-. exists a, b. rewrite Nat.add_0_r.
      auto using list_getitem_nat.
    + destruct (Hrec i y Hi) as (a' & b' & H1 & H2 & ->).
      exists a', b'. replace (k + S i)%nat with (S k + i)%nat by lia. auto.
Qed.

(** What [merge] leaves behind: the object as it was if it raised, and
    register-wise maxima if it returned. *)
Lemma merge_cases (self other : HyperLogLog) :
  shape self ->
  (exists e, merge other self = (Raise e, self)) \/
  (exists bs',
     merge other self = (Ok tt, set_buckets bs' self) /\
     length bs' = length (buckets self) /\
     forall (i : nat) (y : Z), bs' !! i = Some y ->
       exists a b, buckets self !! i = Some a /\ buckets other !! i = Some b /\
                   y = Z.max a b).
Proof.
  intros Hshape. rewrite merge_run.
  destruct (_ =? _); [|left; eauto].
  destruct (mapM _ _ self) as [[bs'|e] s'] eqn:Hm; [|left; eauto].
  right. exists bs'. split; [reflexivity|].
  unfold range in Hm. unfold shape in Hshape. rewrite <- Hshape in Hm.
  change 0 with (Z.of_nat 0) in Hm.
  destruct (mapM_max_at_ok _ _ _ _ _ _ _ Hm) as [Hlen Hel].
  split; [exact Hlen|exact Hel].
Qed.

Lemma registers_le_refl (bs : list Z) : registers_le bs bs.
Proof. intros i x y Hx Hy. rewrite Hx in Hy. injection Hy as <-. lia. Qed.

Lemma registers_le_insert (bs : list Z) (k : nat) (old v : Z) :
  bs !! k = Some old -> old <= v -> registers_le bs (<[k := v]> bs).
Proof.
  intros Hold Hv i x y Hx Hy.
  destruct (decide (k = i)) as [<-|Hne].
  - rewrite list_lookup_insert_eq in Hy by (eapply lookup_lt_Some; eauto).
    rewrite Hold in Hx. injection Hx as <-. injection Hy as <-. exact Hv.
  - rewrite list_lookup_insert_ne in Hy by exact Hne.
    rewrite Hx in Hy. injection Hy as <-. lia.
Qed.

End Registers.

(** ** Estimators fed by streams *)

Section Streams.

Lemma set_buckets_id (self : HyperLogLog) : set_buckets (buckets self) self = self.
Proof. now destruct self. Qed.

Lemma constructed_init (n : Z) (out : stdout) (self : HyperLogLog) :
  eval (__init__ n) out = Ok self ->
  constructed self /\ number_of_buckets self = n.
Proof.
  intros Hinit. destruct (init_ok_inv n out self Hinit) as [Hpow ->].
  pose proof (power_of_two_pos n Hpow). split; [|reflexivity].
  split; simpl.
  - exact Hpow.
  - unfold shape. simpl. rewrite length_replicate. lia.
  - apply Forall_replicate. lia.
Qed.

Lemma added_constructed (self : HyperLogLog) (item : string) :
  constructed self ->
  constructed (added self item) /\
  number_of_buckets (added self item) = number_of_buckets self /\
  alpha_m (added self item) = alpha_m self /\
  add item self = (Ok tt, added self item).
Proof.
  intros [Hpow Hshape Hnn].
  destruct (add_constructed item self Hpow Hshape) as (old & Hold & Hadd).
  unfold added, exec. rewrite Hadd. simpl.
  repeat split; simpl; try assumption.
  - unfold shape in *. simpl. now rewrite length_insert.
  - apply Forall_insert; [exact Hnn|].
    pose proof (Forall_lookup_1 _ _ _ _ Hnn Hold). simpl in *. lia.
Qed.

(** The caller's loop on a constructed estimator never raises: it is the
    left fold of [added]. *)
Lemma add_all_run (items : list string) : forall self,
  constructed self ->
  add_all items self = (Ok tt, fold_left added items self).
Proof.
  unfold add_all.
  induction items as [|x items IH]; intros self Hc; simpl; [reflexivity|].
  destruct (added_constructed self x Hc) as (Hc' & _ & _ & Hadd).
  rewrite bind_run, Hadd. apply IH, Hc'.
Qed.

Lemma fold_added_constructed (items : list string) : forall self,
  constructed self ->
  constructed (fold_left added items self) /\
  number_of_buckets (fold_left added items self) = number_of_buckets self.
Proof.
  induction items as [|x items IH]; intros self Hc; simpl; [auto|].
  destruct (added_constructed self x Hc) as (Hc' & Hn & _).
  destruct (IH _ Hc') as [Hc'' Hn']. split; [exact Hc''|congruence].
Qed.

(** Two [add]s commute. *)
Lemma added_comm (self : HyperLogLog) (x y : string) :
  constructed self ->
  added (added self x) y = added (added self y) x.
Proof.
  intros Hc.
  destruct (added_constructed self x Hc) as (Hcx & Hnx & _).
  destruct (added_constructed self y Hc) as (Hcy & Hny & _).
  destruct Hc as [Hpow Hshape _].
  destruct (add_constructed x self Hpow Hshape) as (ox & Hox & Hx).
  destruct (add_constructed y self Hpow Hshape) as (oy & Hoy & Hy).
  destruct Hcx as [Hpowx Hshapex _]. destruct Hcy as [Hpowy Hshapey _].
  destruct (add_constructed y (added self x) Hpowx Hshapex)
    as (oy' & Hoy' & Hyx).
  destruct (add_constructed x (added self y) Hpowy Hshapey)
    as (ox' & Hox' & Hxy).
  unfold added, exec in *. rewrite Hx in *. rewrite Hy in *. simpl in *.
  rewrite Hyx, Hxy. simpl. unfold set_buckets. simpl. f_equal.
  set (i := Z.to_nat (Z.land (sha256_int x) (number_of_buckets self - 1))) in *.
  set (j := Z.to_nat (Z.land (sha256_int y) (number_of_buckets self - 1))) in *.
  set (rx := rank_of x (Z.log2 (number_of_buckets self))) in *.
  set (ry := rank_of y (Z.log2 (number_of_buckets self))) in *.
  pose proof (lookup_lt_Some _ _ _ Hox) as Hi.
  pose proof (lookup_lt_Some _ _ _ Hoy) as Hj.
  destruct (decide (i = j)) as [Heq|Hne].
  - rewrite <- Heq in *.
    rewrite list_lookup_insert_eq in Hoy', Hox' by exact Hi.
    injection Hoy' as <-. injection Hox' as <-.
    rewrite Hox in Hoy. injection Hoy as <-.
    rewrite !list_insert_insert_eq. f_equal. lia.
  - rewrite list_lookup_insert_ne in Hoy' by exact Hne.
    rewrite list_lookup_insert_ne in Hox' by (intros ->; contradiction).
    rewrite Hoy in Hoy'. injection Hoy' as <-.
    rewrite Hox in Hox'. injection Hox' as <-.
    apply list_insert_insert_ne. intros ->. contradiction.
Qed.

(** The registers do not depend on the order in which items arrive. *)
Lemma fold_added_perm (items items' : list string) :
  Permutation items items' ->
  forall self, constructed self ->
  fold_left added items self = fold_left added items' self.
Proof.
  induction 1 as [|x l l' _ IH|x y l|l l' l'' _ IH1 _ IH2]; intros self Hc; simpl.
  - reflexivity.
  - apply IH. apply (added_constructed self x Hc).
  - now rewrite (added_comm self y x Hc).
  - rewrite (IH1 self Hc). apply IH2, Hc.
Qed.

(** Merging an estimator that has received one more item is merging, then
    adding the item. *)
Lemma merge_added (a b : HyperLogLog) (x : string) :
  constructed a -> constructed b ->
  number_of_buckets a = number_of_buckets b ->
  exec (merge (added b x)) a = added (exec (merge b) a) x.
Proof.
  intros Ha Hb Hn.
  destruct (added_constructed b x Hb) as ([_ Hshapebx _] & Hnbx & _).
  destruct Ha as [Hpowa Hshapea Hnna]. destruct Hb as [Hpowb Hshapeb Hnnb].
  unfold exec at 1.
  rewrite (merge_same_shape a (added b x) Hshapea Hshapebx) by congruence.
  unfold exec at 1. rewrite (merge_same_shape a b Hshapea Hshapeb Hn).
  simpl.
  destruct (add_constructed x b Hpowb Hshapeb) as (ob & Hob & Hb).
  assert (Hlen : length (buckets a) = length (buckets b)).
  { unfold shape in *. lia. }
  assert (Hshapec :
    shape (set_buckets (zip_with Z.max (buckets a) (buckets b)) a)).
  { unfold shape in *. simpl. rewrite length_zip_with. lia. }
  destruct (add_constructed x
              (set_buckets (zip_with Z.max (buckets a) (buckets b)) a)
              Hpowa Hshapec) as (oc & Hoc & Hc).
  unfold added, exec. rewrite Hb, Hc. simpl in *.
  unfold set_buckets. simpl. f_equal. rewrite <- Hn in *.
  set (i := Z.to_nat (Z.land (sha256_int x) (number_of_buckets a - 1))) in *.
  set (r := rank_of x (Z.log2 (number_of_buckets a))) in *.
  destruct (lookup_lt_is_Some_2 (buckets a) i) as [oa Hoa].
  { rewrite Hlen. eapply lookup_lt_Some; eauto. }
  rewrite lookup_zip_with, Hoa, Hob in Hoc. simpl in Hoc.
  injection Hoc as <-.
  rewrite <- (list_insert_id (buckets a) i oa Hoa) at 1.
  rewrite <- insert_zip_with. f_equal. lia.
Qed.

Lemma zip_with_max_zeros (bs : list Z) :
  Forall (fun r => 0 <= r) bs ->
  zip_with Z.max bs (replicate (length bs) 0) = bs.
Proof.
  induction 1 as [|r bs Hr _ IH]; [reflexivity|].
  simpl. rewrite IH. f_equal. lia.
Qed.

(** Merging a freshly constructed estimator changes nothing. *)
Lemma merge_fresh (a : HyperLogLog) (alpha : R) :
  constructed a ->
  merge (mkHLL (number_of_buckets a)
               (replicate (Z.to_nat (number_of_buckets a)) 0) alpha) a
  = (Ok tt, a).
Proof.
  intros [Hpow Hshape Hnn].
  rewrite merge_same_shape; try reflexivity; try assumption.
  - simpl. f_equal. unfold shape in Hshape.
    rewrite <- Hshape, Nat2Z.id, zip_with_max_zeros by exact Hnn.
    apply set_buckets_id.
  - unfold shape. simpl. rewrite length_replicate.
    pose proof (power_of_two_pos _ Hpow). lia.
Qed.

Lemma merge_fold_added (items : list string) : forall a b,
  constructed a -> constructed b ->
  number_of_buckets a = number_of_buckets b ->
  exec (merge (fold_left added items b)) a
  = fold_left added items (exec (merge b) a).
Proof.
  induction items as [|x items IH]; intros a b Ha Hb Hn; simpl; [reflexivity|].
  destruct (added_constructed b x Hb) as (Hbx & Hnbx & _).
  rewrite IH by (auto; congruence).
  now rewrite merge_added.
Qed.

End Streams.

(** ** The example of the module: 16 buckets, "hello", "world", "hello" *)

Example example_registers :
  buckets (exec (add_all ["hello"; "world"; "hello"]%string)
                (mkHLL 16 (replicate 16 0) 0.673%R))
  = [0; 0; 0; 0; 2; 0; 0; 2; 0; 0; 0; 0; 0; 0; 0; 0].
Proof. reflexivity. Qed.

(** * The claims *)

Section EstimateClaims.
Local Open Scope R_scope.

Lemma harmonic_denominator_zeros (k : nat) :
  Spec.harmonic_denominator (replicate k 0%Z) = INR k.
Proof.
  induction k as [|k IH]; [reflexivity|].
  rewrite S_INR. simpl replicate. simpl Spec.harmonic_denominator.
  rewrite IH. lra.
Qed.

Lemma zero_buckets_zeros (k : nat) :
  Spec.zero_buckets (replicate k 0%Z) = Z.of_nat k.
Proof.
  unfold Spec.zero_buckets. f_equal.
  induction k as [|k IH]; [reflexivity|].
  simpl replicate. rewrite filter_cons.
  destruct (decide (0%Z = 0%Z)); [|contradiction]. simpl. now rewrite IH.
Qed.

(** A freshly constructed estimator estimates 0. *)
Lemma estimate_fresh (n : Z) :
  (0 < n)%Z ->
  estimate (mkHLL n (replicate (Z.to_nat n) 0%Z) (alpha_of n))
  = (Ok 0, mkHLL n (replicate (Z.to_nat n) 0%Z) (alpha_of n)).
Proof.
  intros Hpos.
  rewrite estimate_run; [|unfold shape; simpl; rewrite length_replicate; lia
                         |exact Hpos].
  f_equal. unfold estimate_steps, Spec.corrected, Spec.small_range, Spec.raw.
  simpl alpha_m. simpl number_of_buckets. simpl buckets.
  rewrite harmonic_denominator_zeros, zero_buckets_zeros, INR_IZR_INZ.
  rewrite Z2Nat.id by lia.
  assert (Hn : 0 < IZR n) by (apply IZR_lt; exact Hpos).
  pose proof (alpha_of_bounds n Hpos) as Halpha.
  replace (alpha_of n * IZR n ^ 2 / IZR n) with (alpha_of n * IZR n)
    by (field; lra).
  destruct (Rle_dec (alpha_of n * IZR n) (2.5 * IZR n)) as [_|Hgt]; [|nra].
  destruct (Z_lt_dec 0 n); [|lia].
  replace (IZR n / IZR n) with 1 by (field; lra).
  rewrite ln_1, Rmult_0_r. apply large_range_below. lra.
Qed.

End EstimateClaims.

(** C2. [__init__] fails with its assertion error (the specification's
    [InvalidConfiguration]) exactly when [bucket_count] is not a positive
    power of two, whatever the integer; for a positive power of two it
    returns an estimator of [bucket_count] registers, all 0, on which
    [estimate] returns 0. *)
Theorem init_accepts_powers_of_two (n : Z) (out : stdout) :
  ((exists msg, eval (__init__ n) out = Raise (AssertionError msg))
   <-> ~ power_of_two n) /\
  (power_of_two n ->
   exists self,
     __init__ n out = (Ok self, out) /\
     number_of_buckets self = n /\
     Z.of_nat (length (buckets self)) = n /\
     Forall (fun r => r = 0) (buckets self) /\
     eval estimate self = Ok 0%R).
Proof.
  split.
  - unfold eval. rewrite init_run. split.
    + intros [msg Hraise] Hpow.
      pose proof (power_of_two_pos n Hpow) as Hpos.
      destruct (Z.gtb_spec n 0); [|lia].
      rewrite (proj2 (land_pred_power_of_two n Hpos) Hpow) in Hraise.
      discriminate Hraise.
    + intros Hnot. destruct (Z.gtb_spec n 0) as [Hpos|Hneg].
      * destruct (Z.eqb_spec (Z.land n (n - 1)) 0) as [Hland|Hland].
        -- exfalso. apply Hnot, land_pred_power_of_two; [lia|exact Hland].
        -- exists init_message_power. reflexivity.
      * exists init_message_positive. reflexivity.
  - intros Hpow. pose proof (power_of_two_pos n Hpow) as Hpos.
    exists (mkHLL n (replicate (Z.to_nat n) 0) (alpha_of n)).
    rewrite (init_power_of_two n out Hpow). simpl.
    repeat split.
    + rewrite length_replicate. lia.
    + apply Forall_replicate. reflexivity.
    + unfold eval. now rewrite estimate_fresh.
Qed.

Lemma init_accepts_powers_of_two_witness :
  (exists msg, eval (__init__ 100) [] = Raise (AssertionError msg)) /\
  exists self,
    __init__ 512 [] = (Ok self, []) /\
    number_of_buckets self = 512 /\
    Z.of_nat (length (buckets self)) = 512 /\
    Forall (fun r => r = 0) (buckets self) /\
    eval estimate self = Ok 0%R.
Proof.
  split.
  - apply (proj1 (init_accepts_powers_of_two 100 [])).
    intros Hpow. apply (land_pred_power_of_two 100) in Hpow; [|lia].
    vm_compute in Hpow. discriminate Hpow.
  - apply (proj2 (init_accepts_powers_of_two 512 [])).
    exists 9. split; [lia|reflexivity].
Defined.

Section EstimateSafety.
Local Open Scope R_scope.

Lemma harmonic_denominator_replicate (k : nat) (r : Z) :
  Spec.harmonic_denominator (replicate k r) = INR k * powerRZ 2 (- r).
Proof.
  induction k as [|k IH]; [simpl; lra|].
  rewrite S_INR. simpl replicate. simpl Spec.harmonic_denominator.
  rewrite IH. lra.
Qed.

(** Whenever [estimate] returns, it returns a non-negative number; it
    returns as long as the estimate of steps 1 and 2 stays below [2^32]. *)
Lemma estimate_nonneg (self : HyperLogLog) :
  shape self -> (0 < number_of_buckets self)%Z -> 0 < alpha_m self ->
  Spec.corrected self < 2 ^ 32 ->
  exists v, estimate self = (Ok v, self) /\ 0 <= v.
Proof.
  intros Hshape Hpos Halpha Hlt.
  rewrite (estimate_run self Hshape Hpos). unfold estimate_steps.
  assert (Hnonneg : 0 <= Spec.corrected self).
  { unfold Spec.corrected, Spec.small_range.
    assert (Hm : 0 < IZR (number_of_buckets self))
      by (apply IZR_lt; exact Hpos).
    assert (Hraw : 0 < Spec.raw (alpha_m self) (number_of_buckets self)
                         (buckets self)).
    { unfold Spec.raw. apply Rdiv_lt_0_compat.
      - apply Rmult_lt_0_compat; [exact Halpha|]. apply pow_lt, Hm.
      - apply harmonic_denominator_pos. intros Hnil.
        unfold shape in Hshape. rewrite Hnil in Hshape. simpl in Hshape. lia. }
    destruct (Rle_dec _ _); [|lra].
    destruct (Z_lt_dec 0 (Spec.zero_buckets (buckets self))) as [Hz|_]; [|lra].
    pose proof (zero_buckets_le_length (buckets self)) as [_ Hzle].
    unfold shape in Hshape. rewrite Hshape in Hzle.
    assert (Hzr : 0 < IZR (Spec.zero_buckets (buckets self)))
      by (apply IZR_lt; exact Hz).
    apply IZR_le in Hzle.
    apply Rmult_le_pos; [lra|].
    rewrite <- ln_1. 
    destruct (Req_dec (IZR (number_of_buckets self) /
                       IZR (Spec.zero_buckets (buckets self))) 1) as [->|Hne].
    - lra.
    - left. apply ln_increasing; [lra|].
      assert (1 <= IZR (number_of_buckets self) /
                   IZR (Spec.zero_buckets (buckets self))); [|lra].
      apply (Rmult_le_reg_r (IZR (Spec.zero_buckets (buckets self))));
        [exact Hzr|].
      unfold Rdiv. rewrite Rmult_assoc, Rinv_l by lra. lra. }
  destruct (Rle_lt_dec (Spec.corrected self) (2 ^ 32 / 30)) as [Hle|Hgt].
  - rewrite large_range_below by exact Hle. eauto.
  - rewrite large_range_between by lra.
    eexists. split; [reflexivity|].
    assert (Hln : ln (1 - Spec.corrected self / 2 ^ 32) < 0).
    { rewrite <- ln_1. apply ln_increasing; lra. }
    nra.
Qed.

(** C1. On an estimator of 16 buckets whose registers all hold 30, the
    first two steps go as described: the sum of the [2^-register] is
    [16 / 2^30], [raw = 0.673 * 16^2 / sum] is [11562051960.832], above
    [2.5 * 16], so linear counting does not apply. The estimate exceeds
    [2^32 / 30], so the third step applies; but it is also above [2^32],
    the logarithm is asked for the negative number [1 - raw / 2^32], and
    [estimate] raises [ValueError]: no final value is returned. *)
Theorem estimate_returns_no_value :
  let self := mkHLL 16 (replicate 16 30%Z) 0.673 in
  let raw := 0.673 * IZR (16 ^ 2) / harmonic_sum (buckets self) in
  harmonic_sum (buckets self) = 16 / 2 ^ 30 /\
  raw = 11562051960.832 /\
  ~ raw <= 2.5 * IZR 16 /\
  raw > IZR (1 ≪ 32) / 30.0 /\
  1.0 - raw / IZR (1 ≪ 32) < 0 /\
  eval estimate self = Raise ValueError /\
  forall v, eval estimate self <> Ok v.
Proof.
  cbv zeta. cbn [buckets].
  assert (Hsum : harmonic_sum (replicate 16 30%Z) = 16 / 2 ^ 30).
  { rewrite harmonic_sum_spec, (harmonic_denominator_replicate 16 30).
    replace (INR 16) with 16 by (simpl; lra).
    replace (powerRZ 2 (- (30))) with (/ 2 ^ 30) by (simpl; lra).
    reflexivity. }
  assert (Hraw : 0.673 * IZR (16 ^ 2) / harmonic_sum (replicate 16 30%Z)
                 = 11562051960.832).
  { rewrite Hsum. change (16 ^ 2)%Z with 256%Z.
    unfold Rdiv. rewrite Rinv_mult, Rinv_inv. lra. }
  assert (Hraise :
    eval estimate (mkHLL 16 (replicate 16 30%Z) 0.673) = Raise ValueError).
  { unfold eval. rewrite estimate_run; [|reflexivity|simpl; lia].
    cbn [fst]. unfold estimate_steps. apply large_range_domain.
    unfold Spec.corrected, Spec.small_range, Spec.raw.
    cbn [alpha_m number_of_buckets buckets].
    rewrite <- harmonic_sum_spec.
    replace (0.673 * 16 ^ 2 / harmonic_sum (replicate 16 30%Z))
      with 11562051960.832
      by (rewrite <- Hraw; change (16 ^ 2)%Z with 256%Z; f_equal; lra).
    destruct (Rle_dec 11562051960.832 (2.5 * 16)); lra. }
  rewrite Hraw, two_pow_32.
  repeat split; try lra; try exact Hsum; try exact Hraise.
  intros v Hv. rewrite Hraise in Hv. discriminate Hv.
Qed.

(** C5. An estimator of 16 buckets whose registers all hold 30: the raw
    estimate is far above [2^32], the logarithm of step 3 is asked for a
    negative number, and [estimate] raises [ValueError] instead of
    returning a non-negative value. *)
Theorem estimate_raises_on_large_registers :
  estimate (mkHLL 16 (replicate 16 30%Z) 0.673)
  = (Raise ValueError, mkHLL 16 (replicate 16 30%Z) 0.673).
Proof.
  rewrite estimate_run; [|reflexivity|simpl; lia].
  f_equal. unfold estimate_steps. apply large_range_domain.
  unfold Spec.corrected, Spec.small_range, Spec.raw.
  cbn [alpha_m number_of_buckets buckets].
  rewrite (harmonic_denominator_replicate 16 30).
  replace (INR 16) with 16 by (simpl; lra).
  replace (powerRZ 2 (- (30))) with (/ 1073741824) by (simpl; lra).
  replace (0.673 * 16 ^ 2 / (16 * / 1073741824)) with 11562051960.832
    by (unfold Rdiv; rewrite Rinv_mult, Rinv_inv; lra).
  destruct (Rle_dec 11562051960.832 (2.5 * 16)); lra.
Qed.

End EstimateSafety.

(** C6 as stated fails: with 100 buckets, smaller than 128 and not a power
    of two, no estimator is created and no warning is printed. *)
Lemma init_rejects_hundred_buckets :
  __init__ 100 [] = (Raise (AssertionError init_message_power), []).
Proof. rewrite init_run. reflexivity. Qed.

(** C6, amended. Called on its own with a positive count below 128 that is
    not a power of two, [_compute_alpha_m] prints the warning and returns
    [0.7213 / (1 + 1.079 / bucket_count)]; [__init__] rejects every such
    count (and every count that is not positive) with its assertion error
    before anything is printed, so no estimator is created. *)
Theorem nonstandard_count_warns_or_rejects (n : Z) (out : stdout) :
  n < 128 -> ~ power_of_two n ->
  (exists msg, __init__ n out = (Raise (AssertionError msg), out)) /\
  (0 < n ->
   _compute_alpha_m n out =
     (Ok (0.7213 / (1 + 1.079 / IZR n))%R, out ++ [warning_text])).
Proof.
  intros Hsmall Hnot. split.
  - rewrite init_run. destruct (Z.gtb_spec n 0) as [Hpos|Hneg]; [|eauto].
    destruct (Z.eqb_spec (Z.land n (n - 1)) 0) as [Hland|Hland]; [|eauto].
    exfalso. apply Hnot, land_pred_power_of_two; [lia|exact Hland].
  - intros Hpos. rewrite compute_alpha_run by exact Hpos.
    assert (Hne : n <> 2 ^ Z.log2 n).
    { intros Heq. apply Hnot. exists (Z.log2 n).
      split; [apply Z.log2_nonneg|exact Heq]. }
    destruct (Z.eqb_spec n (2 ^ Z.log2 n)); [contradiction|].
    destruct (Z.ltb_spec n 128); [|lia]. simpl.
    unfold alpha_of.
    destruct (Z.eqb_spec n 16) as [->|_];
      [exfalso; apply Hnot; exists 4; split; [lia|reflexivity]|].
    destruct (Z.eqb_spec n 32) as [->|_];
      [exfalso; apply Hnot; exists 5; split; [lia|reflexivity]|].
    destruct (Z.eqb_spec n 64) as [->|_];
      [exfalso; apply Hnot; exists 6; split; [lia|reflexivity]|].
    reflexivity.
Qed.

Lemma nonstandard_count_warns_or_rejects_witness :
  (exists msg, __init__ 100 [] = (Raise (AssertionError msg), [])) /\
  _compute_alpha_m 100 [] =
    (Ok (0.7213 / (1 + 1.079 / IZR 100))%R, [warning_text]).
Proof.
  assert (Hnot : ~ power_of_two 100).
  { intros Hpow. apply (land_pred_power_of_two 100) in Hpow; [|lia].
    vm_compute in Hpow. discriminate Hpow. }
  split.
  - apply (proj1 (nonstandard_count_warns_or_rejects 100 [] ltac:(lia) Hnot)).
  - apply (proj2 (nonstandard_count_warns_or_rejects 100 [] ltac:(lia) Hnot)). lia.
Defined.

(** C3. [merge] fails with its assertion error (the specification's
    [IncompatibleShape]) exactly when the two bucket counts differ;
    whenever [merge] raises, the estimator is the one it was, so no
    register has changed; and between estimators of the same bucket count,
    each with its registers, it returns and every register is the maximum
    of the two registers of its index. *)
Theorem merge_rejects_other_shape (self other : HyperLogLog) :
  (eval (merge other) self = Raise (AssertionError merge_message)
   <-> number_of_buckets other <> number_of_buckets self) /\
  (forall e, eval (merge other) self = Raise e ->
             exec (merge other) self = self) /\
  (shape self -> shape other ->
   number_of_buckets other = number_of_buckets self ->
   merge other self =
     (Ok tt, set_buckets (zip_with Z.max (buckets self) (buckets other)) self)).
Proof.
  split; [|split].
  - split.
    + intros Hraise Heq. unfold eval in Hraise. rewrite merge_run in Hraise.
      rewrite (proj2 (Z.eqb_eq _ _) (eq_sym Heq)) in Hraise.
      destruct (mapM _ _ self) as [[bs'|e] s'] eqn:Hm; [discriminate|].
      simpl in Hraise. injection Hraise as ->.
      (* the comprehension raises nothing but IndexError *)
      revert Hm. generalize (range (number_of_buckets self)).
      intros l. revert s'. induction l as [|i l IH]; intros s'; simpl.
      * discriminate.
      * rewrite bind_run. unfold max_at at 1. rewrite bind_lift.
        unfold list_getitem at 1.
        destruct (py_index (buckets self) i) as [k|]; [|discriminate].
        destruct (buckets self !! k); [|discriminate].
        rewrite bind_lift. unfold list_getitem at 1.
        destruct (py_index (buckets other) i) as [k'|]; [|discriminate].
        destruct (buckets other !! k'); [|discriminate].
        unfold ret at 1. rewrite bind_run.
        destruct (mapM (max_at (buckets self) (buckets other)) l self)
          as [[bs|e] s1] eqn:Hrest; [discriminate|].
        intros [= -> <-]. eapply IH. reflexivity.
    + intros Hne. unfold eval. rewrite merge_mismatch by congruence.
      reflexivity.
  - intros e Hraise. unfold eval, exec in *.
    destruct (merge other self) as [r s'] eqn:Hm. simpl in *. subst r.
    eapply merge_raise_state, Hm.
  - intros Hs Ho Heq. apply merge_same_shape; auto.
Qed.

Lemma merge_rejects_other_shape_witness :
  exec (merge (mkHLL 32 (replicate 32 0) 0.697%R))
       (mkHLL 16 (replicate 16 0) 0.673%R)
  = mkHLL 16 (replicate 16 0) 0.673%R /\
  merge (mkHLL 16 (replicate 16 2) 0.673%R)
        (mkHLL 16 (replicate 16 1) 0.673%R)
  = (Ok tt, mkHLL 16 (replicate 16 2) 0.673%R).
Proof.
  split.
  - apply (proj1 (proj2 (merge_rejects_other_shape (mkHLL 16 (replicate 16 0) 0.673%R)
                                     (mkHLL 32 (replicate 32 0) 0.697%R)))
             (AssertionError merge_message)).
    apply (proj1 (merge_rejects_other_shape _ _)). simpl. lia.
  - apply (proj2 (proj2 (merge_rejects_other_shape (mkHLL 16 (replicate 16 1) 0.673%R)
                                     (mkHLL 16 (replicate 16 2) 0.673%R))));
      reflexivity.
Defined.

(** C4 as stated fails on its last part: for a remainder of 0 the loop of
    [_count_leading_zeroes] is not entered and the rank is 1; it does not
    grow without bound. *)
Lemma rank_of_zero_remainder_is_one :
  _count_leading_zeroes 0 = 1 /\
  ~ (forall bound : Z, bound < _count_leading_zeroes 0).
Proof.
  split; [exact count_leading_zeroes_zero|].
  intros Hunbounded. specialize (Hunbounded 1).
  rewrite count_leading_zeroes_zero in Hunbounded. lia.
Qed.

(** C4, amended. On an estimator with a power-of-two [bucket_count] and its
    registers, [add] stores, by [max], into register
    [h & (bucket_count - 1)] the rank of [remainder = h >> log2 bucket_count],
    where [h] is the digest read as a number: for a nonzero remainder the
    position of its lowest set bit counted from 1 at the right, and for a
    zero remainder 1. The rank loop terminates on every input. *)
Theorem add_stores_rank (item : string) (self : HyperLogLog) :
  power_of_two (number_of_buckets self) -> shape self ->
  let h := sha256_int item in
  let remainder := h ≫ Z.log2 (number_of_buckets self) in
  let rank := _count_leading_zeroes remainder in
  0 <= h < 2 ^ 256 /\
  (remainder <> 0 -> lowest_set_bit remainder rank) /\
  (remainder = 0 -> rank = 1) /\
  exists old,
    buckets self !! Z.to_nat (Z.land h (number_of_buckets self - 1)) = Some old /\
    add item self =
      (Ok tt,
       set_buckets
         (<[Z.to_nat (Z.land h (number_of_buckets self - 1)) :=
             Z.max old rank]> (buckets self)) self).
Proof.
  intros Hpow Hshape. cbv zeta.
  pose proof (sha256_int_range item) as Hh.
  split; [exact Hh|]. split; [|split].
  - intros Hne. apply count_leading_zeroes_lowest.
    pose proof (Z.shiftr_nonneg (sha256_int item)
                  (Z.log2 (number_of_buckets self))) as [_ Hnn].
    specialize (Hnn ltac:(lia)). lia.
  - intros ->. exact count_leading_zeroes_zero.
  - exact (add_constructed item self Hpow Hshape).
Qed.

Lemma add_stores_rank_witness :
  add "hello" (mkHLL 16 (replicate 16 0) 0.673%R)
  = (Ok tt, mkHLL 16 (<[4%nat := 2]> (replicate 16 0)) 0.673%R).
Proof.
  destruct (add_stores_rank "hello" (mkHLL 16 (replicate 16 0) 0.673%R))
    as (_ & _ & _ & old & Hold & Hadd).
  - exists 4. split; [lia|reflexivity].
  - reflexivity.
  - rewrite Hadd. rewrite sha256_hello in *.
    vm_compute in Hold. injection Hold as <-. reflexivity.
Defined.

(** C7. Adding an item a second time leaves every register as the first
    addition left it, whatever the item and the state of the estimator. *)
Theorem add_twice_same_state (item : string) (self : HyperLogLog) :
  exec (add item) (exec (add item) self) = exec (add item) self.
Proof.
  destruct (add_cases item self)
    as [[e Hraise]|(shift & k & old & Hshift & Hk & Hold & Hadd)].
  - unfold exec. rewrite Hraise. simpl. now rewrite Hraise.
  - unfold exec at 2 3. rewrite Hadd. simpl.
    unfold exec. rewrite add_run. simpl.
    rewrite Hshift.
    rewrite (py_index_length (buckets self)) by (now rewrite length_insert).
    rewrite Hk.
    rewrite list_lookup_insert_eq by (eapply lookup_lt_Some; eauto).
    simpl. unfold set_buckets. simpl. f_equal.
    rewrite list_insert_insert_eq. f_equal. lia.
Qed.

(** C8. Let [bucket_count] be a power of two and [h0] the estimator
    [__init__] returns for it. If [all] holds the items of the streams [s1]
    and [s2] in any order, the estimator that received [all] is exactly the
    estimator that received [s1] after [merge] with the one that received
    [s2]; the merge returns, and each of its registers is the maximum of
    the two registers of its index. Neither loop raises. *)
Theorem merge_of_separate_streams
    (m : Z) (out : stdout) (s1 s2 all : list string) :
  power_of_two m -> Permutation all (s1 ++ s2) ->
  exists h0,
    __init__ m out = (Ok h0, out) /\
    eval (add_all all) h0 = Ok tt /\
    eval (add_all s1) h0 = Ok tt /\
    eval (add_all s2) h0 = Ok tt /\
    merge (exec (add_all s2) h0) (exec (add_all s1) h0)
    = (Ok tt, exec (add_all all) h0) /\
    buckets (exec (add_all all) h0)
    = zip_with Z.max (buckets (exec (add_all s1) h0))
                     (buckets (exec (add_all s2) h0)).
Proof.
  intros Hpow Hperm.
  exists (mkHLL m (replicate (Z.to_nat m) 0) (alpha_of m)).
  set (h0 := mkHLL m (replicate (Z.to_nat m) 0) (alpha_of m)).
  pose proof (init_power_of_two m out Hpow) as Hinit. fold h0 in Hinit.
  destruct (constructed_init m out h0) as [Hc0 Hn0].
  { unfold eval. now rewrite Hinit. }
  unfold eval, exec. rewrite !add_all_run by exact Hc0. simpl.
  destruct (fold_added_constructed s1 h0 Hc0) as [Hc1 Hn1].
  destruct (fold_added_constructed s2 h0 Hc0) as [Hc2 Hn2].
  assert (Hmerge :
    merge (fold_left added s2 h0) (fold_left added s1 h0)
    = (Ok tt, fold_left added all h0)).
  { pose proof (merge_fold_added s2 (fold_left added s1 h0) h0 Hc1 Hc0
                  ltac:(congruence)) as Hcomm.
    unfold exec in Hcomm at 2.
    replace h0 with
      (mkHLL (number_of_buckets (fold_left added s1 h0))
             (replicate (Z.to_nat (number_of_buckets (fold_left added s1 h0))) 0)
             (alpha_of m)) in Hcomm at 3 by (rewrite Hn1; reflexivity).
    rewrite (merge_fresh _ (alpha_of m) Hc1) in Hcomm. simpl in Hcomm.
    rewrite <- fold_left_app in Hcomm.
    rewrite <- (fold_added_perm _ _ Hperm h0 Hc0) in Hcomm.
    destruct Hc1 as [_ Hs1 _]. destruct Hc2 as [_ Hs2 _].
    rewrite merge_same_shape by (auto; congruence).
    unfold exec in Hcomm.
    rewrite merge_same_shape in Hcomm by (auto; congruence).
    simpl in Hcomm. now rewrite Hcomm. }
  repeat split; try reflexivity; try exact Hinit; try exact Hmerge.
  destruct Hc1 as [_ Hs1 _]. destruct Hc2 as [_ Hs2 _].
  rewrite merge_same_shape in Hmerge by (auto; congruence).
  injection Hmerge as Hmerge. rewrite <- Hmerge. reflexivity.
Qed.

Lemma merge_of_separate_streams_witness :
  exists h0,
    __init__ 16 [] = (Ok h0, []) /\
    eval (add_all ["world"; "hello"; "hello"]%string) h0 = Ok tt /\
    eval (add_all ["hello"; "world"]%string) h0 = Ok tt /\
    eval (add_all ["hello"]%string) h0 = Ok tt /\
    merge (exec (add_all ["hello"]%string) h0)
          (exec (add_all ["hello"; "world"]%string) h0)
    = (Ok tt, exec (add_all ["world"; "hello"; "hello"]%string) h0) /\
    buckets (exec (add_all ["world"; "hello"; "hello"]%string) h0)
    = zip_with Z.max (buckets (exec (add_all ["hello"; "world"]%string) h0))
                     (buckets (exec (add_all ["hello"]%string) h0)).
Proof.
  apply (merge_of_separate_streams 16 [] ["hello"; "world"]%string ["hello"]%string).
  - exists 4. split; [lia|reflexivity].
  - simpl. apply perm_swap.
Defined.

(** C9. On an estimator that has [bucket_count] registers, each of [add],
    [merge] and [estimate], whether it returns or raises, leaves
    [bucket_count] as it was and as many registers, none of them smaller
    than before. *)
Theorem operations_keep_registers (self : HyperLogLog) :
  shape self ->
  let kept (after : HyperLogLog) :=
    number_of_buckets after = number_of_buckets self /\
    shape after /\
    registers_le (buckets self) (buckets after) in
  (forall item, kept (exec (add item) self)) /\
  (forall other, kept (exec (merge other) self)) /\
  kept (exec estimate self).
Proof.
  intros Hshape kept.
  assert (Hsame : kept self).
  { repeat split; [exact Hshape|apply registers_le_refl]. }
  split; [|split].
  - intros item.
    destruct (add_cases item self)
      as [[e Hraise]|(shift & k & old & _ & _ & Hold & Hadd)];
      unfold exec.
    + rewrite Hraise. exact Hsame.
    + rewrite Hadd. repeat split; simpl.
      * unfold shape in *. simpl. now rewrite length_insert.
      * eapply registers_le_insert; [exact Hold|lia].
  - intros other.
    destruct (merge_cases self other Hshape)
      as [[e Hraise]|(bs' & Hmerge & Hlen & Hel)]; unfold exec.
    + rewrite Hraise. exact Hsame.
    + rewrite Hmerge. repeat split; simpl.
      * unfold shape in *. simpl. now rewrite Hlen.
      * intros i x y Hx Hy. destruct (Hel i y Hy) as (a & b & Ha & _ & ->).
        rewrite Hx in Ha. injection Ha as <-. lia.
  - unfold exec. rewrite estimate_read_only. exact Hsame.
Qed.

Lemma operations_keep_registers_witness :
  number_of_buckets (exec (add "hello") (mkHLL 16 (replicate 16 0) 0.673%R))
  = 16 /\
  shape (exec (add "hello") (mkHLL 16 (replicate 16 0) 0.673%R)) /\
  registers_le (replicate 16 0)
    (buckets (exec (add "hello") (mkHLL 16 (replicate 16 0) 0.673%R))).
Proof.
  apply (proj1 (operations_keep_registers
                  (mkHLL 16 (replicate 16 0) 0.673%R) eq_refl) "hello"%string).
Defined.

Section RegisterBound.

(** The rank computed from the digest of any item, after a shift by [k]
    bits: at most [256 - k] for a nonzero remainder, 1 for a zero one. *)
Lemma rank_of_cases (item : string) (k : Z) :
  0 <= k ->
  let remainder := sha256_int item ≫ k in
  (remainder <> 0 -> 1 <= rank_of item k <= 256 - k) /\
  (remainder = 0 -> rank_of item k = 1).
Proof.
  intros Hk remainder. pose proof (sha256_int_range item) as Hh.
  unfold rank_of. fold remainder. split.
  - intros Hne.
    assert (Hnn : 0 <= remainder) by (apply Z.shiftr_nonneg; lia).
    split; [apply count_leading_zeroes_pos|].
    apply count_leading_zeroes_width. split; [lia|].
    unfold remainder. rewrite Z.shiftr_div_pow2 by exact Hk.
    destruct (Z_lt_le_dec 256 k) as [Hbig|Hsmall].
    + (* more than 256 bits shifted out: the remainder is 0 *)
      exfalso. apply Hne. unfold remainder.
      rewrite Z.shiftr_div_pow2 by exact Hk. apply Z.div_small.
      split; [lia|]. apply Z.lt_le_trans with (2 ^ 256); [lia|].
      apply Z.pow_le_mono_r; lia.
    + apply Z.div_lt_upper_bound; [apply Z.pow_pos_nonneg; lia|].
      rewrite <- Z.pow_add_r by lia.
      replace (k + (256 - k)) with 256 by lia. lia.
  - intros ->. exact count_leading_zeroes_zero.
Qed.

Lemma rank_of_bound (item : string) (k : Z) :
  0 <= k <= 255 -> 1 <= rank_of item k <= 256 - k.
Proof.
  intros Hk. destruct (rank_of_cases item k ltac:(lia)) as [Hnz Hz].
  destruct (Z.eq_dec (sha256_int item ≫ k) 0) as [H0|Hne].
  - rewrite (Hz H0). lia.
  - exact (Hnz Hne).
Qed.

(** What holds of every state an estimator of [m] buckets goes through. *)
Lemma reachable_constructed (m : Z) (self : HyperLogLog) :
  reachable m self -> constructed self /\ number_of_buckets self = m.
Proof.
  induction 1 as [out self Hinit|item self _ [Hc Hn]
                  |other self _ [Hc Hn] _ [Hco Hno]].
  - exact (constructed_init m out self Hinit).
  - destruct (added_constructed self item Hc) as (Hc' & Hn' & _).
    split; [exact Hc'|]. unfold added in Hn'. congruence.
  - destruct Hc as [Hpow Hshape Hnn]. destruct Hco as [_ Hshapeo Hnno].
    unfold exec. rewrite merge_same_shape by (auto; congruence). simpl.
    split; [|exact Hn]. split; simpl.
    + exact Hpow.
    + unfold shape in *. simpl. rewrite length_zip_with. lia.
    + apply Forall_lookup_2. intros i y Hy.
      rewrite lookup_zip_with in Hy.
      destruct (buckets self !! i) as [a|] eqn:Ha; [|discriminate].
      destruct (buckets other !! i) as [b|]; [|discriminate].
      simpl in Hy. injection Hy as <-.
      pose proof (Forall_lookup_1 _ _ _ _ Hnn Ha). simpl in *. lia.
Qed.

Lemma reachable_bounded (m w : Z) (self : HyperLogLog) :
  0 <= w ->
  (forall item, rank_of item (Z.log2 m) <= w) ->
  reachable m self -> bounded w self.
Proof.
  intros Hw Hrank. unfold bounded.
  induction 1 as [out self Hinit|item self Hreach IH
                  |other self Hreach IH Hreacho IHo].
  - destruct (init_ok_inv m out self Hinit) as [_ ->]. simpl.
    apply Forall_replicate. lia.
  - destruct (reachable_constructed m self Hreach) as [[Hpow Hshape _] Hn].
    destruct (add_constructed item self Hpow Hshape) as (old & Hold & Hadd).
    unfold exec. rewrite Hadd. simpl.
    apply Forall_insert; [exact IH|].
    pose proof (Forall_lookup_1 _ _ _ _ IH Hold) as Hb. simpl in Hb.
    rewrite Hn. specialize (Hrank item). lia.
  - destruct (reachable_constructed m self Hreach) as [[_ Hshape _] Hn].
    destruct (reachable_constructed m other Hreacho) as [[_ Hshapeo _] Hno].
    unfold exec. rewrite merge_same_shape by (auto; congruence). simpl.
    apply Forall_lookup_2. intros i y Hy.
    rewrite lookup_zip_with in Hy.
    destruct (buckets self !! i) as [a|] eqn:Ha; [|discriminate].
    destruct (buckets other !! i) as [b|] eqn:Hb; [|discriminate].
    simpl in Hy. injection Hy as <-.
    pose proof (Forall_lookup_1 _ _ _ _ IH Ha).
    pose proof (Forall_lookup_1 _ _ _ _ IHo Hb). simpl in *. lia.
Qed.

(** With at least [2^256] buckets every digest is its own bucket index and
    leaves a zero remainder, so the first [add] writes the rank 1. *)
Lemma add_huge (m : Z) (item : string) (out : stdout) :
  power_of_two m -> 2 ^ 256 <= m ->
  exists h0,
    eval (__init__ m) out = Ok h0 /\
    buckets (exec (add item) h0) !! Z.to_nat (sha256_int item) = Some 1.
Proof.
  intros Hpow Hbig.
  exists (mkHLL m (replicate (Z.to_nat m) 0) (alpha_of m)).
  unfold eval. rewrite (init_power_of_two m out Hpow).
  split; [reflexivity|].
  pose proof (sha256_int_range item) as Hh.
  assert (Hshape : shape (mkHLL m (replicate (Z.to_nat m) 0) (alpha_of m))).
  { unfold shape. cbn [buckets number_of_buckets].
    rewrite length_replicate. lia. }
  destruct (add_constructed item
              (mkHLL m (replicate (Z.to_nat m) 0) (alpha_of m)) Hpow Hshape)
    as (old & Hold & Hadd).
  cbn [buckets number_of_buckets] in Hold, Hadd.
  assert (Hidx : Z.land (sha256_int item) (m - 1) = sha256_int item).
  { destruct Hpow as (k & Hk & ->).
    replace (2 ^ k - 1) with (Z.ones k) by (rewrite Z.ones_equiv; lia).
    rewrite Z.land_ones by lia. apply Z.mod_small. lia. }
  assert (Hrank : rank_of item (Z.log2 m) = 1).
  { apply rank_of_cases; [apply Z.log2_nonneg|].
    rewrite Z.shiftr_div_pow2 by apply Z.log2_nonneg.
    rewrite <- (power_of_two_log2 m Hpow). apply Z.div_small. lia. }
  rewrite Hidx, Hrank in *.
  apply lookup_replicate in Hold as [-> Hlt].
  unfold exec. rewrite Hadd. cbn [snd buckets set_buckets].
  rewrite list_lookup_insert_eq by (rewrite length_replicate; exact Hlt).
  reflexivity.
Qed.

End RegisterBound.

(** C10. For an estimator constructed with [m] buckets, [m < 2^256] (fewer
    buckets than there are digests, as for any list that fits in memory),
    and every sequence of [add] and of [merge] with estimators obtained the
    same way with the same [m], every register lies in
    [[0, 256 - log2 m]]: the rank of a 256-bit digest shifted right by
    [log2 m] bits is at most [256 - log2 m] for a nonzero remainder and
    exactly 1 for a zero remainder, so no rank exceeds the width of the
    digest. *)
Theorem registers_within_bound (m : Z) (self : HyperLogLog) :
  m < 2 ^ 256 -> reachable m self ->
  bounded (256 - Z.log2 m) self /\
  forall item,
    let remainder := sha256_int item ≫ Z.log2 m in
    let rank := _count_leading_zeroes remainder in
    (remainder <> 0 -> 1 <= rank <= 256 - Z.log2 m) /\
    (remainder = 0 -> rank = 1) /\
    rank <= 256.
Proof.
  intros Hm Hreach.
  destruct (reachable_constructed m self Hreach) as [[Hpow _ _] Hn].
  rewrite Hn in Hpow.
  assert (Hlog : 0 <= Z.log2 m <= 255).
  { split; [apply Z.log2_nonneg|].
    pose proof (power_of_two_pos m Hpow) as Hpos.
    pose proof (proj1 (Z.log2_lt_pow2 m 256 Hpos) Hm). lia. }
  split.
  - apply (reachable_bounded m); [lia| |exact Hreach].
    intros item. apply rank_of_bound, Hlog.
  - intros item. cbv zeta.
    pose proof (rank_of_cases item (Z.log2 m) ltac:(lia)) as [Hnz Hz].
    pose proof (rank_of_bound item (Z.log2 m) Hlog) as Hb.
    unfold rank_of in *. repeat split; auto; lia.
Qed.

Lemma registers_within_bound_witness :
  bounded (256 - Z.log2 16)
    (exec (add "hello") (mkHLL 16 (replicate 16 0) (alpha_of 16))).
Proof.
  apply (registers_within_bound 16).
  - lia.
  - apply reach_add. apply (reach_init 16 []). reflexivity.
Defined.

(** The bound on [m] cannot be dropped where lists have no size limit:
    with [2^256] buckets the range is [[0, 0]], and the first [add] leaves
    a register at 1. *)
Remark bound_needs_fewer_buckets_than_digests :
  exists self,
    reachable (2 ^ 256) self /\
    ~ bounded (256 - Z.log2 (2 ^ 256)) self.
Proof.
  assert (Hpow : power_of_two (2 ^ 256)) by (exists 256; split; [lia|reflexivity]).
  destruct (add_huge (2 ^ 256) "" [] Hpow (Z.le_refl _)) as (h0 & Hinit & Hreg).
  exists (exec (add "") h0). split.
  - apply reach_add. eapply reach_init. exact Hinit.
  - intros Hb. pose proof (Forall_lookup_1 _ _ _ _ Hb Hreg) as Hle.
    cbv beta in Hle. rewrite Z.log2_pow2 in Hle by lia. lia.
Qed.

(** * Further properties of the module *)

(** ** [merge] as an operation on register lists *)

Section MergeAlgebra.

Lemma zip_with_max_comm (l1 l2 : list Z) :
  zip_with Z.max l1 l2 = zip_with Z.max l2 l1.
Proof.
  revert l2. induction l1 as [|a l1 IH]; intros [|b l2]; simpl; try reflexivity.
  rewrite IH. f_equal. lia.
Qed.

Lemma zip_with_max_assoc (l1 l2 l3 : list Z) :
  zip_with Z.max (zip_with Z.max l1 l2) l3
  = zip_with Z.max l1 (zip_with Z.max l2 l3).
Proof.
  revert l2 l3.
  induction l1 as [|a l1 IH]; intros [|b l2] [|c l3]; simpl; try reflexivity.
  rewrite IH. f_equal. lia.
Qed.

Lemma zip_with_max_absorb (l1 l2 : list Z) :
  zip_with Z.max (zip_with Z.max l1 l2) l2 = zip_with Z.max l1 l2.
Proof.
  revert l2. induction l1 as [|a l1 IH]; intros [|b l2]; simpl; try reflexivity.
  rewrite IH. f_equal. lia.
Qed.

Lemma zip_with_max_diag (l : list Z) : zip_with Z.max l l = l.
Proof. induction l as [|a l IH]; simpl; [reflexivity|]. rewrite IH. f_equal. lia. Qed.

Lemma merge_shape_kept (a b : HyperLogLog) :
  shape a -> shape b -> number_of_buckets a = number_of_buckets b ->
  shape (exec (merge b) a) /\
  number_of_buckets (exec (merge b) a) = number_of_buckets a /\
  buckets (exec (merge b) a) = zip_with Z.max (buckets a) (buckets b).
Proof.
  intros Ha Hb Hn. unfold exec. rewrite merge_same_shape by assumption. simpl.
  repeat split. unfold shape in *. simpl. rewrite length_zip_with. lia.
Qed.

End MergeAlgebra.

(** X1. [merge] is commutative on the registers: between two estimators of
    the same bucket count, each with its registers, [a.merge(b)] and
    [b.merge(a)] both return and leave the same register list. *)
Theorem merge_commutative (a b : HyperLogLog) :
  shape a -> shape b -> number_of_buckets a = number_of_buckets b ->
  eval (merge b) a = Ok tt /\ eval (merge a) b = Ok tt /\
  buckets (exec (merge b) a) = buckets (exec (merge a) b).
Proof.
  intros Ha Hb Hn. unfold eval, exec.
  rewrite (merge_same_shape a b Ha Hb Hn).
  rewrite (merge_same_shape b a Hb Ha (eq_sym Hn)). simpl.
  repeat split. apply zip_with_max_comm.
Qed.

Lemma merge_commutative_witness :
  buckets (exec (merge (mkHLL 16 (replicate 16 3) 0.673%R))
                (mkHLL 16 (replicate 16 1) 0.673%R))
  = buckets (exec (merge (mkHLL 16 (replicate 16 1) 0.673%R))
                  (mkHLL 16 (replicate 16 3) 0.673%R)).
Proof.
  apply (merge_commutative (mkHLL 16 (replicate 16 1) 0.673%R)
                           (mkHLL 16 (replicate 16 3) 0.673%R));
    reflexivity.
Defined.

(** X2. [merge] is associative: merging [b] then [c] into [a] leaves [a]
    exactly as merging into it [b] after [c] was merged into [b]. *)
Theorem merge_associative (a b c : HyperLogLog) :
  shape a -> shape b -> shape c ->
  number_of_buckets a = number_of_buckets b ->
  number_of_buckets b = number_of_buckets c ->
  exec (merge c) (exec (merge b) a) = exec (merge (exec (merge c) b)) a.
Proof.
  intros Ha Hb Hc Hab Hbc.
  destruct (merge_shape_kept a b Ha Hb Hab) as (Hab_shape & Hab_n & Hab_bs).
  destruct (merge_shape_kept b c Hb Hc Hbc) as (Hbc_shape & Hbc_n & Hbc_bs).
  unfold exec at 1.
  rewrite (merge_same_shape (exec (merge b) a) c Hab_shape Hc) by congruence.
  unfold exec at 3.
  rewrite (merge_same_shape a (exec (merge c) b) Ha Hbc_shape) by congruence.
  simpl. rewrite Hab_bs, Hbc_bs, zip_with_max_assoc.
  unfold exec. rewrite (merge_same_shape a b Ha Hb Hab). reflexivity.
Qed.

Lemma merge_associative_witness :
  exec (merge (mkHLL 16 (replicate 16 2) 0.673%R))
       (exec (merge (mkHLL 16 (replicate 16 3) 0.673%R))
             (mkHLL 16 (replicate 16 1) 0.673%R))
  = exec (merge (exec (merge (mkHLL 16 (replicate 16 2) 0.673%R))
                      (mkHLL 16 (replicate 16 3) 0.673%R)))
         (mkHLL 16 (replicate 16 1) 0.673%R).
Proof.
  apply (merge_associative (mkHLL 16 (replicate 16 1) 0.673%R)
                           (mkHLL 16 (replicate 16 3) 0.673%R)
                           (mkHLL 16 (replicate 16 2) 0.673%R));
    reflexivity.
Defined.

(** X3. [merge] is idempotent: merging an estimator into itself changes
    nothing, and merging the same estimator a second time changes nothing
    more. *)
Theorem merge_idempotent (a b : HyperLogLog) :
  shape a ->
  exec (merge a) a = a /\
  (shape b -> number_of_buckets a = number_of_buckets b ->
   exec (merge b) (exec (merge b) a) = exec (merge b) a).
Proof.
  intros Ha. split.
  - unfold exec. rewrite (merge_same_shape a a Ha Ha eq_refl). simpl.
    rewrite zip_with_max_diag. apply set_buckets_id.
  - intros Hb Hn.
    destruct (merge_shape_kept a b Ha Hb Hn) as (Hs & Hn' & Hbs).
    unfold exec at 1.
    rewrite (merge_same_shape (exec (merge b) a) b Hs Hb) by congruence.
    simpl. rewrite Hbs, zip_with_max_absorb.
    unfold exec. rewrite (merge_same_shape a b Ha Hb Hn). reflexivity.
Qed.

Lemma merge_idempotent_witness :
  exec (merge (mkHLL 16 (replicate 16 1) 0.673%R))
       (mkHLL 16 (replicate 16 1) 0.673%R)
  = mkHLL 16 (replicate 16 1) 0.673%R.
Proof.
  apply (proj1 (merge_idempotent (mkHLL 16 (replicate 16 1) 0.673%R)
                                 (mkHLL 16 (replicate 16 1) 0.673%R)
                                 ltac:(reflexivity))).
Defined.

(** X4. A freshly constructed estimator is neutral for [merge]: merged into
    an estimator that was built by [__init__], [add] and [merge], it changes
    nothing, and after that estimator is merged into it, it holds the same
    registers. *)
Theorem merge_fresh_neutral (m : Z) (out : stdout) (a fresh : HyperLogLog) :
  reachable m a -> eval (__init__ m) out = Ok fresh ->
  merge fresh a = (Ok tt, a) /\
  eval (merge a) fresh = Ok tt /\
  buckets (exec (merge a) fresh) = buckets a.
Proof.
  intros Hreach Hinit.
  destruct (reachable_constructed m a Hreach) as [Ha Hn].
  destruct (init_ok_inv m out fresh Hinit) as [Hpow ->].
  destruct (constructed_init m out _ Hinit) as [[_ Hfs _] _].
  assert (Hmerge :
    merge (mkHLL m (replicate (Z.to_nat m) 0) (alpha_of m)) a = (Ok tt, a)).
  { rewrite <- Hn. apply merge_fresh, Ha. }
  split; [exact Hmerge|].
  destruct Ha as [_ Has Hnn].
  unfold eval, exec.
  rewrite (merge_same_shape _ a Hfs Has) by (simpl; congruence). simpl.
  split; [reflexivity|].
  rewrite zip_with_max_comm.
  replace (Z.to_nat m) with (length (buckets a))
    by (unfold shape in Has; lia).
  apply zip_with_max_zeros, Hnn.
Qed.

Lemma merge_fresh_neutral_witness :
  merge (mkHLL 16 (replicate 16 0) (alpha_of 16))
        (exec (add "hello") (mkHLL 16 (replicate 16 0) (alpha_of 16)))
  = (Ok tt, exec (add "hello") (mkHLL 16 (replicate 16 0) (alpha_of 16))).
Proof.
  apply (merge_fresh_neutral 16 []).
  - apply reach_add. apply (reach_init 16 []). reflexivity.
  - reflexivity.
Defined.

(** ** What a stream of items leaves in the registers *)

Section RegisterContents.

Lemma foldr_max_nonneg (l : list Z) : 0 <= foldr Z.max 0 l.
Proof. induction l as [|y l IH]; simpl; lia. Qed.

Lemma foldr_max_ge (l : list Z) (y : Z) : y ∈ l -> y <= foldr Z.max 0 l.
Proof.
  induction l as [|z l IH]; intros Hin.
  - apply elem_of_nil in Hin. contradiction.
  - apply elem_of_cons in Hin as [->|Hin]; simpl; [lia|].
    specialize (IH Hin). lia.
Qed.

Lemma foldr_max_le (l : list Z) (B : Z) :
  0 <= B -> (forall y, y ∈ l -> y <= B) -> foldr Z.max 0 l <= B.
Proof.
  intros HB. induction l as [|z l IH]; intros Hall; simpl; [exact HB|].
  assert (z <= B) by (apply Hall; left).
  assert (foldr Z.max 0 l <= B) by (apply IH; intros y Hy; apply Hall; now right).
  lia.
Qed.

Lemma max_rank_nonneg (m : Z) (i : nat) (items : list string) :
  0 <= max_rank m i items.
Proof. apply foldr_max_nonneg. Qed.

Lemma max_rank_cons (m : Z) (i : nat) (x : string) (items : list string) :
  max_rank m i (x :: items) =
    if decide (bucket_of m x = i)
    then Z.max (rank_of x (Z.log2 m)) (max_rank m i items)
    else max_rank m i items.
Proof.
  unfold max_rank. rewrite filter_cons.
  destruct (decide (bucket_of m x = i)); reflexivity.
Qed.

(** The ranks that count for bucket [i] are those of the items routed to
    it; [max_rank] looks at which items occur, not at how often or where. *)
Lemma max_rank_same_items (m : Z) (i : nat) (items items' : list string) :
  (forall x, x ∈ items -> x ∈ items') ->
  max_rank m i items <= max_rank m i items'.
Proof.
  intros Hsub. apply foldr_max_le; [apply max_rank_nonneg|].
  intros y Hy. apply list_elem_of_fmap in Hy as (x & -> & Hx).
  apply list_elem_of_filter in Hx as [Hb Hx].
  apply foldr_max_ge. apply list_elem_of_fmap. exists x. split; [reflexivity|].
  apply list_elem_of_filter. auto.
Qed.

Lemma added_lookup (self : HyperLogLog) (x : string) (i : nat) (b : Z) :
  constructed self -> buckets self !! i = Some b ->
  buckets (added self x) !! i =
    Some (if decide (bucket_of (number_of_buckets self) x = i)
          then Z.max b (rank_of x (Z.log2 (number_of_buckets self)))
          else b).
Proof.
  intros [Hpow Hshape _] Hb.
  destruct (add_constructed x self Hpow Hshape) as (old & Hold & Hadd).
  unfold added, exec. rewrite Hadd. simpl.
  fold (bucket_of (number_of_buckets self) x) in *.
  destruct (decide (bucket_of (number_of_buckets self) x = i)) as [Heq|Hne].
  - rewrite Heq in *. rewrite Hb in Hold. injection Hold as <-.
    apply list_lookup_insert_eq. eapply lookup_lt_Some, Hb.
  - rewrite list_lookup_insert_ne by exact Hne. exact Hb.
Qed.

Lemma fold_added_lookup (items : list string) : forall self (i : nat) (b : Z),
  constructed self -> buckets self !! i = Some b ->
  buckets (fold_left added items self) !! i
  = Some (Z.max b (max_rank (number_of_buckets self) i items)).
Proof.
  induction items as [|x items IH]; intros self i b Hc Hb.
  - simpl. rewrite Hb. f_equal.
    pose proof (Forall_lookup_1 _ _ _ _ (constructed_nonneg _ Hc) Hb).
    unfold max_rank. simpl in *. lia.
  - simpl fold_left.
    destruct (added_constructed self x Hc) as (Hc' & Hn' & _).
    rewrite (IH _ i _ Hc' (added_lookup self x i b Hc Hb)).
    rewrite Hn', max_rank_cons. f_equal.
    destruct (decide (bucket_of (number_of_buckets self) x = i)); lia.
Qed.

Lemma fold_added_set_buckets (items : list string) : forall self,
  constructed self ->
  fold_left added items self
  = set_buckets (buckets (fold_left added items self)) self.
Proof.
  induction items as [|x items IH]; intros self Hc; simpl.
  - symmetry. apply set_buckets_id.
  - destruct (added_constructed self x Hc) as (Hc' & Hn' & Ha' & _).
    rewrite (IH _ Hc') at 1. unfold set_buckets. now rewrite Hn', Ha'.
Qed.

End RegisterContents.

(** X5. On an estimator built by [__init__], [add] and [merge], the loop
    that adds a stream of items never raises, and it leaves in each
    register the maximum of what the register held and of the ranks of the
    items of the stream that are routed to its bucket. *)
Theorem registers_after_stream
    (m : Z) (self : HyperLogLog) (items : list string) (i : nat) (b : Z) :
  reachable m self -> buckets self !! i = Some b ->
  eval (add_all items) self = Ok tt /\
  reachable m (exec (add_all items) self) /\
  buckets (exec (add_all items) self) !! i
  = Some (Z.max b (max_rank m i items)).
Proof.
  intros Hreach Hb.
  destruct (reachable_constructed m self Hreach) as [Hc Hn].
  unfold eval, exec. rewrite add_all_run by exact Hc. simpl.
  split; [reflexivity|]. split.
  - clear Hb. revert self Hreach Hc Hn.
    induction items as [|x items IH]; intros self Hreach Hc Hn; simpl;
      [exact Hreach|].
    apply IH.
    + apply (reach_add m x self Hreach).
    + apply (added_constructed self x Hc).
    + destruct (added_constructed self x Hc) as (_ & Hn' & _). congruence.
  - rewrite <- Hn. apply fold_added_lookup; assumption.
Qed.

Lemma registers_after_stream_witness :
  buckets (exec (add_all ["hello"; "world"; "hello"]%string)
                (mkHLL 16 (replicate 16 0) (alpha_of 16))) !! 4%nat
  = Some (Z.max 0 (max_rank 16 4 ["hello"; "world"; "hello"]%string)).
Proof.
  apply (registers_after_stream 16).
  - apply (reach_init 16 []). reflexivity.
  - reflexivity.
Defined.

(** X6. The registers depend only on which items were added: two streams
    with the same items, in any order and with any repetitions, leave an
    estimator in exactly the same state. *)
Theorem same_items_same_state
    (m : Z) (self : HyperLogLog) (items items' : list string) :
  reachable m self ->
  (forall x, x ∈ items <-> x ∈ items') ->
  exec (add_all items) self = exec (add_all items') self.
Proof.
  intros Hreach Hsame.
  destruct (reachable_constructed m self Hreach) as [Hc Hn].
  unfold exec. rewrite !add_all_run by exact Hc. simpl.
  rewrite (fold_added_set_buckets items self Hc).
  rewrite (fold_added_set_buckets items' self Hc). f_equal.
  destruct (fold_added_constructed items self Hc) as [[_ Hs _] Hn1].
  destruct (fold_added_constructed items' self Hc) as [[_ Hs' _] Hn2].
  apply list_eq. intros i.
  destruct (buckets self !! i) as [b|] eqn:Hb.
  - rewrite !(fold_added_lookup _ self i b Hc Hb). do 2 f_equal.
    apply Z.le_antisymm; apply max_rank_same_items; intros x; apply Hsame.
  - apply lookup_ge_None in Hb.
    destruct Hc as [_ Hshape _]. unfold shape in *.
    rewrite !(proj2 (lookup_ge_None _ _)) by lia. reflexivity.
Qed.

Lemma same_items_same_state_witness :
  exec (add_all ["hello"; "world"; "hello"]%string)
       (mkHLL 16 (replicate 16 0) (alpha_of 16))
  = exec (add_all ["world"; "hello"]%string)
         (mkHLL 16 (replicate 16 0) (alpha_of 16)).
Proof.
  apply (same_items_same_state 16).
  - apply (reach_init 16 []). reflexivity.
  - intros x. rewrite !elem_of_cons, !elem_of_nil. tauto.
Defined.

(** X7. After a stream of items was added to a freshly constructed
    estimator, a register holds 0 exactly when no item of the stream was
    routed to its bucket. *)
Theorem zero_register_iff_unused
    (m : Z) (out : stdout) (fresh : HyperLogLog)
    (items : list string) (i : nat) :
  eval (__init__ m) out = Ok fresh -> (i < Z.to_nat m)%nat ->
  (buckets (exec (add_all items) fresh) !! i = Some 0
   <-> forall x, x ∈ items -> bucket_of m x <> i).
Proof.
  intros Hinit Hi.
  destruct (constructed_init m out fresh Hinit) as [Hc Hn].
  destruct (init_ok_inv m out fresh Hinit) as [_ Hfresh].
  assert (Hb : buckets fresh !! i = Some 0).
  { rewrite Hfresh. simpl. apply lookup_replicate_2, Hi. }
  unfold exec. rewrite add_all_run by exact Hc. simpl.
  rewrite (fold_added_lookup items fresh i 0 Hc Hb), Hn.
  pose proof (max_rank_nonneg m i items) as Hnn.
  rewrite Z.max_r by exact Hnn. split.
  - intros [= H0] x Hx Hbucket.
    assert (Hge : rank_of x (Z.log2 m) <= max_rank m i items).
    { apply foldr_max_ge, list_elem_of_fmap. exists x. split; [reflexivity|].
      apply list_elem_of_filter. auto. }
    pose proof (count_leading_zeroes_pos (sha256_int x ≫ Z.log2 m)).
    unfold rank_of in Hge. lia.
  - intros Hnone. f_equal. apply Z.le_antisymm; [|exact Hnn].
    apply foldr_max_le; [lia|]. intros y Hy.
    apply list_elem_of_fmap in Hy as (x & _ & Hx).
    apply list_elem_of_filter in Hx as [Hbucket Hx].
    exfalso. exact (Hnone x Hx Hbucket).
Qed.

Lemma zero_register_iff_unused_witness :
  buckets (exec (add_all ["hello"]%string)
                (mkHLL 16 (replicate 16 0) (alpha_of 16))) !! 0%nat = Some 0
  <-> forall x, x ∈ ["hello"%string] -> bucket_of 16 x <> 0%nat.
Proof.
  apply (zero_register_iff_unused 16 []).
  - reflexivity.
  - simpl. lia.
Defined.

(** ** The rank function and the constructor, on their own *)

Section RankValues.

Lemma lowest_set_bit_unique (value r k : Z) :
  lowest_set_bit value r -> 0 <= k -> Z.testbit value k = true ->
  (forall j, 0 <= j < k -> Z.testbit value j = false) -> r = k + 1.
Proof.
  intros (Hr & Hset & Hlow) Hk Hkset Hklow.
  destruct (Z_lt_le_dec (r - 1) k) as [Hlt|Hge].
  - rewrite (Hklow (r - 1)) in Hset by lia. discriminate.
  - destruct (Z.eq_dec (r - 1) k) as [|Hne]; [lia|].
    rewrite (Hlow k) in Hkset by lia. discriminate.
Qed.

End RankValues.

(** X8. [_count_leading_zeroes] returns 1 for every value that is not
    positive (0 and the negative integers do not enter the loop), and for a
    positive value written [odd * 2^k] it returns [k + 1]: one more than
    the number of trailing zero bits. *)
Theorem count_leading_zeroes_values (value : Z) :
  (value <= 0 -> _count_leading_zeroes value = 1) /\
  (forall odd k, 0 < odd -> Z.odd odd = true -> 0 <= k ->
     value = odd * 2 ^ k -> _count_leading_zeroes value = k + 1).
Proof.
  split.
  - intros Hle. unfold _count_leading_zeroes. now apply count_loop_nonpos.
  - intros odd k Hodd Hbit Hk ->.
    assert (Hpos : 0 < odd * 2 ^ k).
    { apply Z.mul_pos_pos; [exact Hodd|apply Z.pow_pos_nonneg; lia]. }
    apply (lowest_set_bit_unique (odd * 2 ^ k)).
    + apply count_leading_zeroes_lowest, Hpos.
    + exact Hk.
    + rewrite Z.mul_pow2_bits by exact Hk. rewrite Z.sub_diag, Z.bit0_odd.
      exact Hbit.
    + intros j Hj. rewrite Z.mul_pow2_bits by exact Hk.
      apply Z.testbit_neg_r. lia.
Qed.

Lemma count_leading_zeroes_values_witness :
  _count_leading_zeroes (-7) = 1 /\ _count_leading_zeroes 40 = 3 + 1.
Proof.
  split.
  - apply (proj1 (count_leading_zeroes_values (-7))). lia.
  - apply (proj2 (count_leading_zeroes_values 40) 5 3); try lia; reflexivity.
Defined.

Section Constants.
Local Open Scope R_scope.

(** X9. [_compute_alpha_m] raises [ValueError] (from [math.log2]) for a
    count that is not positive, before it prints anything. For a positive
    count within the range of floats (up to [2^1023]) it returns. For every
    positive count it prints its warning exactly when the count is below
    128 and not a power of two -- one line, after what was printed before
    -- and nothing otherwise. *)
Theorem compute_alpha_outcomes (n : Z) (out : stdout) :
  ((n <= 0)%Z -> _compute_alpha_m n out = (Raise ValueError, out)) /\
  ((0 < n <= 2 ^ 1023)%Z ->
   exists alpha, eval (_compute_alpha_m n) out = Ok alpha) /\
  ((0 < n)%Z -> (n < 128)%Z /\ ~ power_of_two n ->
   exec (_compute_alpha_m n) out = (out ++ [warning_text])%list) /\
  ((0 < n)%Z -> (128 <= n)%Z \/ power_of_two n ->
   exec (_compute_alpha_m n) out = out).
Proof.
  split; [|split; [|split]].
  - intros Hle. unfold _compute_alpha_m, log2_is_integer.
    destruct (Z.leb_spec n 0); [|lia]. reflexivity.
  - intros [Hpos _]. exists (alpha_of n). unfold eval.
    now rewrite compute_alpha_run by exact Hpos.
  - intros Hpos [Hsmall Hnot]. unfold exec.
    rewrite compute_alpha_run by exact Hpos. cbn [snd].
    destruct (Z.eqb_spec n (2 ^ Z.log2 n)) as [Heq|_].
    + exfalso. apply Hnot. exists (Z.log2 n).
      split; [apply Z.log2_nonneg|exact Heq].
    + destruct (Z.ltb_spec n 128); [reflexivity|lia].
  - intros Hpos Hcase. unfold exec.
    rewrite compute_alpha_run by exact Hpos. cbn [snd].
    destruct Hcase as [Hbig|Hpow].
    + destruct (Z.ltb_spec n 128); [lia|]. now rewrite andb_false_r.
    + rewrite <- (power_of_two_log2 n Hpow), Z.eqb_refl. reflexivity.
Qed.

Lemma compute_alpha_outcomes_witness :
  _compute_alpha_m 0 [] = (Raise ValueError, []) /\
  (exists alpha, eval (_compute_alpha_m 100) [] = Ok alpha) /\
  exec (_compute_alpha_m 100) [] = [warning_text] /\
  exec (_compute_alpha_m 1000) [] = [].
Proof.
  split; [|split; [|split]].
  - apply (proj1 (compute_alpha_outcomes 0 [])). lia.
  - apply (proj1 (proj2 (compute_alpha_outcomes 100 []))).
    split; [lia|]. apply Z.leb_le. vm_compute. reflexivity.
  - apply (proj1 (proj2 (proj2 (compute_alpha_outcomes 100 [])))); [lia|].
    split; [lia|].
    intros Hpow. apply (land_pred_power_of_two 100) in Hpow; [|lia].
    vm_compute in Hpow. discriminate Hpow.
  - apply (proj2 (proj2 (proj2 (compute_alpha_outcomes 1000 [])))); [lia|].
    left. lia.
Defined.

(** X10. For a count from 1 to [2^32], the bias constant
    [_compute_alpha_m] returns lies strictly between 0.34 and 0.7213, and
    above 0.67 from 16 buckets on. (The bound on the count keeps
    [1.079 / n] far from the rounding of floats, which the model leaves
    out.) *)
Theorem alpha_range (n : Z) (out : stdout) :
  (0 < n <= 2 ^ 32)%Z ->
  exists alpha,
    eval (_compute_alpha_m n) out = Ok alpha /\
    0.34 < alpha < 0.7213 /\
    ((16 <= n)%Z -> 0.67 < alpha).
Proof.
  intros [Hpos _]. exists (alpha_of n). unfold eval.
  rewrite compute_alpha_run by exact Hpos. simpl. split; [reflexivity|].
  unfold alpha_of.
  destruct (Z.eqb_spec n 16); [lra|].
  destruct (Z.eqb_spec n 32); [lra|].
  destruct (Z.eqb_spec n 64); [lra|].
  assert (Hn : 1 <= IZR n) by (apply IZR_le; lia).
  assert (Hq : 0 < 1.079 / IZR n <= 1.079).
  { split; [apply Rdiv_lt_0_compat; lra|].
    apply (Rmult_le_reg_r (IZR n)); [lra|].
    unfold Rdiv. rewrite Rmult_assoc, Rinv_l by lra. nra. }
  assert (Hform :
    0.7213 / (1 + 1.079 / IZR n) * (1 + 1.079 / IZR n) = 0.7213)
    by (field; split; lra).
  split; [split; nra|].
  intros Hbig. assert (Hn16 : 16 <= IZR n) by (apply IZR_le; exact Hbig).
  assert (Hq16 : 1.079 / IZR n <= 1.079 / 16).
  { apply (Rmult_le_reg_r (IZR n)); [lra|].
    unfold Rdiv at 1. rewrite Rmult_assoc, Rinv_l by lra. nra. }
  nra.
Qed.

Lemma alpha_range_witness :
  exists alpha,
    eval (_compute_alpha_m 512) [] = Ok alpha /\
    0.34 < alpha < 0.7213 /\
    ((16 <= 512)%Z -> 0.67 < alpha).
Proof. apply (alpha_range 512 []). lia. Defined.

End Constants.

(** X11. [__init__] never prints: whatever the count, the standard output
    is as it was (the warning of [_compute_alpha_m] cannot be reached
    through it). Its first assertion answers a count that is not positive,
    its second a positive count that is not a power of two. *)
Theorem init_silent (n : Z) (out : stdout) :
  exec (__init__ n) out = out /\
  (n <= 0 ->
   eval (__init__ n) out = Raise (AssertionError init_message_positive)) /\
  (0 < n -> ~ power_of_two n ->
   eval (__init__ n) out = Raise (AssertionError init_message_power)).
Proof.
  unfold exec, eval. rewrite init_run. split; [|split].
  - destruct (n >? 0); [|reflexivity].
    destruct (Z.land n (n - 1) =? 0); reflexivity.
  - intros Hle. destruct (Z.gtb_spec n 0); [lia|reflexivity].
  - intros Hpos Hnot. destruct (Z.gtb_spec n 0); [|lia].
    destruct (Z.eqb_spec (Z.land n (n - 1)) 0) as [Hland|_]; [|reflexivity].
    exfalso. apply Hnot, land_pred_power_of_two; [lia|exact Hland].
Qed.

Lemma init_silent_witness :
  eval (__init__ 0) [] = Raise (AssertionError init_message_positive) /\
  eval (__init__ 100) [] = Raise (AssertionError init_message_power).
Proof.
  split.
  - apply (proj2 (init_silent 0 [])). lia.
  - apply (proj2 (init_silent 100 [])); [lia|].
    intros Hpow. apply (land_pred_power_of_two 100) in Hpow; [|lia].
    vm_compute in Hpow. discriminate Hpow.
Defined.

(** ** What [estimate] and [__len__] return *)

Section EstimateValues.
Local Open Scope R_scope.

Lemma Ok_inj {A} (a b : A) : Ok a = Ok b -> a = b.
Proof. now intros [= ->]. Qed.

Lemma ln_below (x : R) : 0 < x -> x <> 1 -> ln x < x - 1.
Proof.
  intros Hx Hne. pose proof (exp_ineq1 (ln x)) as H.
  rewrite exp_ln in H by exact Hx.
  assert (ln x <> 0) by (apply ln_neq_0; assumption).
  specialize (H ltac:(assumption)). lra.
Qed.

Lemma ln_above (x : R) : 0 < x -> 1 - / x <= ln x.
Proof.
  intros Hx. pose proof (exp_ineq1_le (ln (/ x))) as H.
  assert (0 < / x) by (apply Rinv_0_lt_compat; exact Hx).
  rewrite exp_ln in H by assumption. rewrite ln_Rinv in H by exact Hx. lra.
Qed.

Lemma py_int_floor (v : R) :
  0 <= v -> (0 <= py_int v)%Z /\ IZR (py_int v) <= v < IZR (py_int v) + 1.
Proof.
  intros Hv. unfold py_int. destruct (Rle_dec 0 v); [|contradiction].
  destruct (base_Int_part v) as [Hlo Hhi]. split; [|lra].
  assert (Hgt : IZR (-1) < IZR (Int_part v)) by (simpl; lra).
  apply lt_IZR in Hgt. lia.
Qed.

Lemma py_int_between (v : R) (k : Z) : IZR k <= v < IZR k + 1 -> 0 <= v -> py_int v = k.
Proof.
  intros Hk Hv. unfold py_int. destruct (Rle_dec 0 v); [|contradiction].
  symmetry. apply Int_part_spec. lra.
Qed.

Lemma reachable_alpha (m : Z) (self : HyperLogLog) :
  reachable m self -> alpha_m self = alpha_of m.
Proof.
  induction 1 as [out self Hinit|item self Hreach IH|other self Hreach IH _ _].
  - destruct (init_ok_inv m out self Hinit) as [_ ->]. reflexivity.
  - destruct (reachable_constructed m self Hreach) as [Hc _].
    destruct (added_constructed self item Hc) as (_ & _ & Ha & _).
    unfold added in Ha. congruence.
  - unfold exec. rewrite merge_run.
    destruct (_ =? _); [|exact IH].
    destruct (mapM _ _ self) as [[bs'|e] s']; exact IH.
Qed.

(** An estimator built through the methods: what [estimate] needs of it. *)
Lemma reachable_ready (m : Z) (self : HyperLogLog) :
  reachable m self ->
  shape self /\ (0 < number_of_buckets self)%Z /\ 0 < alpha_m self <= 1 /\
  number_of_buckets self = m.
Proof.
  intros Hreach.
  destruct (reachable_constructed m self Hreach) as [[Hpow Hshape _] Hn].
  pose proof (power_of_two_pos _ Hpow) as Hpos.
  rewrite (reachable_alpha m self Hreach).
  repeat split; try assumption; apply alpha_of_bounds; lia.
Qed.

Lemma zero_buckets_all (bs : list Z) :
  Spec.zero_buckets bs = Z.of_nat (length bs) <-> Forall (fun r => r = 0%Z) bs.
Proof.
  unfold Spec.zero_buckets. split.
  - induction bs as [|r bs IH]; intros Hlen; [constructor|].
    rewrite filter_cons in Hlen.
    pose proof (length_filter (fun r => r = 0%Z) bs) as Hle.
    destruct (decide (r = 0%Z)) as [->|Hr]; simpl in Hlen.
    + constructor; [reflexivity|]. apply IH. lia.
    + lia.
  - induction 1 as [|r bs -> _ IH]; [reflexivity|].
    rewrite filter_cons. destruct (decide (0%Z = 0%Z)); [|contradiction].
    simpl. lia.
Qed.

Lemma all_zero_replicate (bs : list Z) :
  Forall (fun r => r = 0%Z) bs -> bs = replicate (length bs) 0%Z.
Proof. induction 1 as [|r bs -> _ IH]; simpl; [reflexivity|]. now f_equal. Qed.

(** The estimate of steps 1 and 2 is 0 on registers that are all 0, and
    positive otherwise. *)
Lemma corrected_sign (self : HyperLogLog) :
  shape self -> (0 < number_of_buckets self)%Z -> 0 < alpha_m self <= 1 ->
  (Forall (fun r => r = 0%Z) (buckets self) -> Spec.corrected self = 0) /\
  (~ Forall (fun r => r = 0%Z) (buckets self) -> 0 < Spec.corrected self).
Proof.
  intros Hshape Hpos Halpha. unfold shape in Hshape.
  assert (Hm : 0 < IZR (number_of_buckets self)) by (apply IZR_lt; exact Hpos).
  assert (Hne : buckets self <> []).
  { intros Hnil. rewrite Hnil in Hshape. simpl in Hshape. lia. }
  pose proof (harmonic_denominator_pos _ Hne) as Hden.
  unfold Spec.corrected, Spec.small_range, Spec.raw. split.
  - intros Hall.
    pose proof (proj2 (zero_buckets_all _) Hall) as Hz. rewrite Hshape in Hz.
    assert (Hhd : Spec.harmonic_denominator (buckets self)
                  = IZR (number_of_buckets self)).
    { rewrite (all_zero_replicate _ Hall), harmonic_denominator_zeros.
      now rewrite INR_IZR_INZ, Hshape. }
    rewrite Hz, Hhd.
    replace (alpha_m self * IZR (number_of_buckets self) ^ 2 /
             IZR (number_of_buckets self))
      with (alpha_m self * IZR (number_of_buckets self)) by (field; lra).
    destruct (Rle_dec _ _) as [_|Hgt]; [|nra].
    destruct (Z_lt_dec 0 (number_of_buckets self)); [|lia].
    replace (IZR (number_of_buckets self) / IZR (number_of_buckets self))
      with 1 by (field; lra).
    rewrite ln_1. lra.
  - intros Hsome.
    assert (Hraw : 0 < alpha_m self * IZR (number_of_buckets self) ^ 2 /
                       Spec.harmonic_denominator (buckets self)).
    { apply Rdiv_lt_0_compat; [|exact Hden].
      apply Rmult_lt_0_compat; [lra|]. apply pow_lt, Hm. }
    destruct (Rle_dec _ _); [|exact Hraw].
    destruct (Z_lt_dec 0 (Spec.zero_buckets (buckets self))) as [Hz|_];
      [|exact Hraw].
    pose proof (zero_buckets_le_length (buckets self)) as [_ Hzle].
    assert (Hzlt : (Spec.zero_buckets (buckets self) <
                    number_of_buckets self)%Z).
    { destruct (Z.eq_dec (Spec.zero_buckets (buckets self))
                         (Z.of_nat (length (buckets self)))) as [Heq|Hneq].
      - exfalso. apply Hsome, zero_buckets_all, Heq.
      - lia. }
    assert (Hzr : 0 < IZR (Spec.zero_buckets (buckets self)))
      by (apply IZR_lt; exact Hz).
    apply IZR_lt in Hzlt.
    apply Rmult_lt_0_compat; [exact Hm|].
    rewrite <- ln_1. apply ln_increasing; [lra|].
    apply (Rmult_lt_reg_r (IZR (Spec.zero_buckets (buckets self))));
      [exact Hzr|].
    unfold Rdiv. rewrite Rmult_assoc, Rinv_l by lra. lra.
Qed.

End EstimateValues.

Lemma len_read_only : read_only __len__.
Proof. unfold __len__. apply read_only_bind; [apply estimate_read_only|]. auto with read_only. Qed.

(** X12. No method changes [number_of_buckets] or [alpha_m], in whatever
    state it is called and whether it returns or raises; [estimate] and
    [__len__] change nothing at all. *)
Theorem configuration_immutable (self : HyperLogLog) :
  (forall item,
     number_of_buckets (exec (add item) self) = number_of_buckets self /\
     alpha_m (exec (add item) self) = alpha_m self) /\
  (forall other,
     number_of_buckets (exec (merge other) self) = number_of_buckets self /\
     alpha_m (exec (merge other) self) = alpha_m self) /\
  exec estimate self = self /\
  exec __len__ self = self.
Proof.
  split; [|split; [|split]].
  - intros item.
    destruct (add_cases item self)
      as [[e Hraise]|(shift & k & old & _ & _ & _ & Hadd)]; unfold exec.
    + rewrite Hraise. auto.
    + rewrite Hadd. auto.
  - intros other. unfold exec. rewrite merge_run.
    destruct (_ =? _); [|auto].
    destruct (mapM _ _ self) as [[bs'|e] s']; auto.
  - apply estimate_read_only.
  - apply len_read_only.
Qed.

Section EstimateOutcomes.
Local Open Scope R_scope.

(** X13. On an estimator built by [__init__], [add] and [merge],
    [estimate] either returns a number that is not negative or raises
    [ValueError]; it raises exactly when the estimate after the small-range
    step has reached [2^32]. It never divides by zero. *)
Theorem estimate_outcomes (m : Z) (self : HyperLogLog) :
  reachable m self ->
  (Spec.corrected self < 2 ^ 32 ->
   exists v, eval estimate self = Ok v /\ 0 <= v) /\
  (2 ^ 32 <= Spec.corrected self ->
   eval estimate self = Raise ValueError).
Proof.
  intros Hreach.
  destruct (reachable_ready m self Hreach) as (Hshape & Hpos & Halpha & _).
  split.
  - intros Hlt.
    destruct (estimate_nonneg self Hshape Hpos (proj1 Halpha) Hlt)
      as (v & Hv & Hnn).
    exists v. unfold eval. now rewrite Hv.
  - intros Hge. unfold eval.
    rewrite (estimate_run self Hshape Hpos). simpl.
    apply large_range_domain, Hge.
Qed.

Lemma estimate_outcomes_witness :
  exists v,
    eval estimate (mkHLL 16 (replicate 16 0%Z) (alpha_of 16)) = Ok v /\
    0 <= v.
Proof.
  apply (proj1 (estimate_outcomes 16 (mkHLL 16 (replicate 16 0%Z) (alpha_of 16))
                  (reach_init 16 [] _ eq_refl))).
  rewrite (proj1 (corrected_sign (mkHLL 16 (replicate 16 0%Z) (alpha_of 16))
                    ltac:(reflexivity) ltac:(simpl; lia)
                    (alpha_of_bounds 16 ltac:(lia)))).
  - lra.
  - apply Forall_replicate. reflexivity.
Defined.

(** What [estimate] returns on an estimator with its registers: 0 on
    registers that are all 0, a positive number otherwise. *)
Lemma estimate_value_sign (self : HyperLogLog) (v : R) :
  shape self -> (0 < number_of_buckets self)%Z -> 0 < alpha_m self <= 1 ->
  eval estimate self = Ok v ->
  (v = 0 <-> Forall (fun r => r = 0%Z) (buckets self)) /\ 0 <= v.
Proof.
  intros Hshape Hpos Halpha Hv.
  destruct (corrected_sign self Hshape Hpos Halpha) as [Hzero Hposv].
  unfold eval in Hv. rewrite (estimate_run self Hshape Hpos) in Hv.
  cbn [fst] in Hv. unfold estimate_steps, large_range_step in Hv.
  destruct (decide (Forall (fun r => r = 0%Z) (buckets self))) as [Hall|Hsome].
  - rewrite (Hzero Hall) in Hv.
    destruct (Rlt_dec (2 ^ 32 / 30) 0); [lra|].
    injection Hv as <-. split; [tauto|lra].
  - specialize (Hposv Hsome).
    assert (Hvpos : 0 < v).
    { destruct (Rlt_dec (2 ^ 32 / 30) (Spec.corrected self)).
      - unfold math_log in Hv.
        destruct (Rlt_dec 0 (1 - Spec.corrected self / 2 ^ 32)) as [Harg|];
          [|discriminate].
        apply Ok_inj in Hv. subst v.
        assert (ln (1 - Spec.corrected self / 2 ^ 32) < 0).
        { rewrite <- ln_1. apply ln_increasing; lra. }
        replace (- 2 ^ 32 * ln (1 - Spec.corrected self / 2 ^ 32))
          with (2 ^ 32 * - ln (1 - Spec.corrected self / 2 ^ 32)) by ring.
        apply Rmult_lt_0_compat; lra.
      - apply Ok_inj in Hv. subst v. exact Hposv. }
    split; [|lra]. split; [lra|contradiction].
Qed.

(** X14. On an estimator built by [__init__], [add] and [merge], what
    [estimate] returns is 0 exactly when every register is 0, that is when
    nothing was ever added; otherwise it is positive. *)
Theorem estimate_zero_iff_empty (m : Z) (self : HyperLogLog) (v : R) :
  reachable m self -> eval estimate self = Ok v ->
  (v = 0 <-> Forall (fun r => r = 0%Z) (buckets self)) /\ 0 <= v.
Proof.
  intros Hreach Hv.
  destruct (reachable_ready m self Hreach) as (Hshape & Hpos & Halpha & _).
  exact (estimate_value_sign self v Hshape Hpos Halpha Hv).
Qed.

Lemma estimate_zero_iff_empty_witness :
  (0 = 0 <-> Forall (fun r => r = 0%Z)
               (buckets (mkHLL 16 (replicate 16 0%Z) (alpha_of 16)))) /\
  0 <= 0.
Proof.
  apply (estimate_zero_iff_empty 16).
  - apply (reach_init 16 []). reflexivity.
  - exact (f_equal fst (estimate_fresh 16 ltac:(lia))).
Defined.

(** X15. [__len__] is [estimate] with its fractional part dropped: where
    [estimate] returns [v] (which is not negative), [__len__] returns the
    integer [k >= 0] with [k <= v < k + 1]; where [estimate] raises,
    [__len__] raises the same exception. *)
Theorem len_truncates (m : Z) (self : HyperLogLog) :
  reachable m self ->
  (forall v, eval estimate self = Ok v ->
     exists k, eval __len__ self = Ok k /\ (0 <= k)%Z /\
               IZR k <= v < IZR k + 1) /\
  (forall e, eval estimate self = Raise e -> eval __len__ self = Raise e).
Proof.
  intros Hreach. unfold eval, __len__. split.
  - intros v Hv.
    destruct (reachable_ready m self Hreach) as (Hshape & Hpos & Halpha & _).
    destruct (estimate_value_sign self v Hshape Hpos Halpha Hv) as [_ Hnn].
    unfold eval in Hv. rewrite bind_run.
    destruct (estimate self) as [r s']. simpl in Hv. subst r. simpl.
    exists (py_int v). split; [reflexivity|]. apply py_int_floor, Hnn.
  - intros e He. rewrite bind_run.
    destruct (estimate self) as [r s']. simpl in He. subst r. reflexivity.
Qed.

Lemma len_truncates_witness :
  exists k,
    eval __len__ (mkHLL 16 (replicate 16 0%Z) (alpha_of 16)) = Ok k /\
    (0 <= k)%Z /\ IZR k <= 0 < IZR k + 1.
Proof.
  apply (proj1 (len_truncates 16 (mkHLL 16 (replicate 16 0%Z) (alpha_of 16))
                  (reach_init 16 [] _ eq_refl))).
  exact (f_equal fst (estimate_fresh 16 ltac:(lia))).
Defined.

Lemma harmonic_denominator_one_used (n i : nat) (r : Z) :
  (i < n)%nat ->
  Spec.harmonic_denominator (<[i := r]> (replicate n 0%Z))
  = INR n - 1 + powerRZ 2 (- r).
Proof.
  revert i. induction n as [|n IH]; intros i Hi; [lia|].
  rewrite S_INR. destruct i as [|i]; simpl.
  - rewrite harmonic_denominator_zeros. lra.
  - rewrite IH by lia. lra.
Qed.

Lemma zero_buckets_one_used (n i : nat) (r : Z) :
  (i < n)%nat -> r <> 0%Z ->
  Spec.zero_buckets (<[i := r]> (replicate n 0%Z)) = (Z.of_nat n - 1)%Z.
Proof.
  intros Hi Hr. revert i Hi. induction n as [|n IH]; intros i Hi; [lia|].
  unfold Spec.zero_buckets in *. destruct i as [|i].
  - change (<[0%nat := r]> (replicate (S n) 0%Z)) with (r :: replicate n 0%Z).
    rewrite filter_cons. destruct (decide (r = 0%Z)); [contradiction|].
    fold (Spec.zero_buckets (replicate n 0%Z)).
    rewrite zero_buckets_zeros. lia.
  - change (<[S i := r]> (replicate (S n) 0%Z))
      with (0%Z :: <[i := r]> (replicate n 0%Z)).
    rewrite filter_cons. destruct (decide (0%Z = 0%Z)); [|contradiction].
    rewrite length_cons. specialize (IH i ltac:(lia)). lia.
Qed.

(** The estimate when exactly one of [m >= 2] registers is in use: linear
    counting gives [m * ln (m / (m - 1))], between 1 and 2. *)
Lemma estimate_one_used (m : Z) (i : nat) (r : Z) :
  (2 <= m)%Z -> (i < Z.to_nat m)%nat -> (1 <= r)%Z ->
  exists v,
    eval estimate (mkHLL m (<[i := r]> (replicate (Z.to_nat m) 0%Z)) (alpha_of m))
    = Ok v /\ 1 <= v < 2.
Proof.
  intros Hm Hi Hr.
  set (self := mkHLL m (<[i := r]> (replicate (Z.to_nat m) 0%Z)) (alpha_of m)).
  assert (Hshape : shape self).
  { unfold shape, self. simpl. rewrite length_insert, length_replicate. lia. }
  unfold eval. rewrite (estimate_run self Hshape ltac:(simpl; lia)).
  cbn [fst]. unfold estimate_steps.
  assert (Hmr : 2 <= IZR m) by (apply IZR_le; exact Hm).
  pose proof (alpha_of_bounds m ltac:(lia)) as Halpha.
  pose proof (powerRZ_2_pos (- r)) as Hp.
  assert (Hcorr : Spec.corrected self = IZR m * ln (IZR m / (IZR m - 1))).
  { unfold Spec.corrected, Spec.small_range, Spec.raw, self.
    cbn [alpha_m number_of_buckets buckets].
    rewrite harmonic_denominator_one_used by exact Hi.
    rewrite zero_buckets_one_used by (try exact Hi; lia).
    rewrite INR_IZR_INZ, Z2Nat.id by lia.
    rewrite minus_IZR.
    destruct (Rle_dec _ _) as [_|Hgt].
    - destruct (Z_lt_dec 0 (m - 1)); [reflexivity|lia].
    - exfalso. apply Hgt.
      apply (Rmult_le_reg_r (IZR m - 1 + powerRZ 2 (- r))); [lra|].
      unfold Rdiv. rewrite Rmult_assoc, Rinv_l by lra. nra. }
  rewrite Hcorr.
  assert (Hx : 0 < IZR m / (IZR m - 1)) by (apply Rdiv_lt_0_compat; lra).
  assert (Hlo : 1 - / (IZR m / (IZR m - 1)) <= ln (IZR m / (IZR m - 1)))
    by (apply ln_above, Hx).
  assert (Hhi : ln (IZR m / (IZR m - 1)) < IZR m / (IZR m - 1) - 1).
  { apply ln_below; [exact Hx|].
    intros Heq. apply (f_equal (fun t => t * (IZR m - 1))) in Heq.
    unfold Rdiv in Heq. rewrite Rmult_assoc, Rinv_l in Heq by lra. lra. }
  replace (1 - / (IZR m / (IZR m - 1))) with (/ IZR m) in Hlo
    by (field; lra).
  replace (IZR m / (IZR m - 1) - 1) with (/ (IZR m - 1)) in Hhi
    by (field; lra).
  assert (Hbounds : 1 <= IZR m * ln (IZR m / (IZR m - 1)) < 2).
  { assert (Hinv : IZR m * / IZR m = 1) by (field; lra).
    assert (Hinv' : (IZR m - 1) * / (IZR m - 1) = 1) by (field; lra).
    assert (Hq : 0 < / (IZR m - 1)) by (apply Rinv_0_lt_compat; lra).
    set (L := ln (IZR m / (IZR m - 1))) in *.
    split; nra. }
  exists (IZR m * ln (IZR m / (IZR m - 1))). split; [|exact Hbounds].
  apply large_range_below. lra.
Qed.

(** X16. On a freshly constructed estimator of 2 to [2^20] buckets, after
    a stream that is not empty and whose items all fall into one bucket --
    one item added any number of times, for instance -- [__len__] returns 1.
    (The estimate is [m * ln (m / (m - 1))], above 1 by about [1 / (2 m)];
    the bound on [m] keeps that margin far from the rounding of floats,
    which the model leaves out.) *)
Theorem len_of_one_bucket
    (m : Z) (out : stdout) (fresh : HyperLogLog)
    (items : list string) (i0 : nat) :
  eval (__init__ m) out = Ok fresh -> (2 <= m <= 2 ^ 20)%Z ->
  items <> [] -> (forall x, x ∈ items -> bucket_of m x = i0) ->
  eval __len__ (exec (add_all items) fresh) = Ok 1%Z.
Proof.
  intros Hinit [Hm _] Hne Hone.
  destruct (constructed_init m out fresh Hinit) as [Hc Hn].
  destruct (init_ok_inv m out fresh Hinit) as [Hpow Hfresh].
  destruct items as [|x0 items0] eqn:Hitems; [contradiction|].
  rewrite <- Hitems in *. clear Hne.
  assert (Hx0 : x0 ∈ items) by (rewrite Hitems; left).
  assert (Hi0 : (i0 < Z.to_nat m)%nat).
  { rewrite <- (Hone x0 Hx0). unfold bucket_of.
    pose proof (bucket_index_range (sha256_int x0) m Hpow). lia. }
  set (r := max_rank m i0 items).
  assert (Hr : (1 <= r)%Z).
  { pose proof (count_leading_zeroes_pos (sha256_int x0 ≫ Z.log2 m)).
    assert (rank_of x0 (Z.log2 m) <= r)%Z; [|unfold rank_of in *; lia].
    apply foldr_max_ge, list_elem_of_fmap. exists x0. split; [reflexivity|].
    apply list_elem_of_filter. auto. }
  assert (Hstate : exec (add_all items) fresh
                   = mkHLL m (<[i0 := r]> (replicate (Z.to_nat m) 0%Z))
                           (alpha_of m)).
  { unfold exec. rewrite add_all_run by exact Hc. cbn [snd].
    rewrite (fold_added_set_buckets items fresh Hc).
    rewrite Hfresh at 2. unfold set_buckets. cbn [number_of_buckets alpha_m].
    f_equal. apply list_eq. intros i.
    destruct (decide (i < Z.to_nat m)%nat) as [Hlt|Hge].
    - assert (Hb : buckets fresh !! i = Some 0%Z).
      { rewrite Hfresh. simpl. apply lookup_replicate_2, Hlt. }
      rewrite (fold_added_lookup items fresh i 0%Z Hc Hb), Hn.
      rewrite Z.max_r by apply max_rank_nonneg.
      destruct (decide (i0 = i)) as [<-|Hdiff].
      + rewrite list_lookup_insert_eq by (rewrite length_replicate; exact Hi0).
        reflexivity.
      + rewrite list_lookup_insert_ne by exact Hdiff.
        rewrite lookup_replicate_2 by exact Hlt. f_equal.
        apply Z.le_antisymm; [|apply max_rank_nonneg].
        apply foldr_max_le; [lia|]. intros y Hy.
        apply list_elem_of_fmap in Hy as (x & _ & Hx).
        apply list_elem_of_filter in Hx as [Hbucket Hx].
        exfalso. apply Hdiff. rewrite <- Hbucket. symmetry. exact (Hone x Hx).
    - destruct (fold_added_constructed items fresh Hc) as [[_ Hs _] Hn'].
      unfold shape in Hs.
      rewrite !(proj2 (lookup_ge_None _ _));
        [reflexivity|rewrite length_insert, length_replicate; lia|lia]. }
  rewrite Hstate.
  destruct (estimate_one_used m i0 r Hm Hi0 Hr) as (v & Hv & Hbounds).
  unfold eval, __len__ in *. rewrite bind_run.
  destruct (estimate _) as [res s']. cbn [fst] in Hv. subst res. cbn [fst ret].
  f_equal. apply py_int_between; [simpl|]; lra.
Qed.

Lemma len_of_one_bucket_witness :
  eval __len__ (exec (add_all ["hello"; "hello"; "hello"]%string)
                     (mkHLL 16 (replicate 16 0%Z) (alpha_of 16)))
  = Ok 1%Z.
Proof.
  apply (len_of_one_bucket 16 [] _ _ (bucket_of 16 "hello")).
  - reflexivity.
  - lia.
  - discriminate.
  - intros x. rewrite !elem_of_cons, elem_of_nil. intros [->|[->|[->|[]]]];
      reflexivity.
Defined.

End EstimateOutcomes.

(** ** The example run of the module *)

Section ExampleRun.
Local Open Scope R_scope.

Lemma bind_ok {S A B} (c : M S A) (k : A -> M S B) (s s' : S) (a : A) :
  c s = (Ok a, s') -> bind c k s = k a s'.
Proof. intros Hc. unfold bind. now rewrite Hc. Qed.

Lemma call_added (self : HyperLogLog) (x : string) (out : stdout) :
  constructed self ->
  call (add x) self out = (Ok (tt, added self x), out).
Proof.
  intros Hc. destruct (added_constructed self x Hc) as (_ & _ & _ & Hadd).
  unfold call. now rewrite Hadd.
Qed.

Lemma three_added (h : HyperLogLog) (x y z : string) (bs : list Z) :
  constructed h ->
  buckets (exec (add_all [x; y; z]) h) = bs ->
  added (added (added h x) y) z = set_buckets bs h.
Proof.
  intros Hc Hbs. unfold exec in Hbs. rewrite (add_all_run _ _ Hc) in Hbs.
  cbn [snd] in Hbs. rewrite <- Hbs.
  exact (fold_added_set_buckets [x; y; z] h Hc).
Qed.

Lemma fresh_16_constructed : constructed (mkHLL 16 (replicate 16 0%Z) 0.673).
Proof.
  split; simpl.
  - exists 4%Z. split; [lia|reflexivity].
  - reflexivity.
  - repeat constructor; lia.
Qed.

Lemma example_state_reached :
  added (added (added (mkHLL 16 (replicate 16 0%Z) 0.673) "hello") "world")
        "hello"
  = example_state.
Proof.
  exact (three_added (mkHLL 16 (replicate 16 0%Z) 0.673)
           "hello" "world" "hello" _ fresh_16_constructed example_registers).
Qed.

Lemma init_16 (out : stdout) :
  __init__ 16 out = (Ok (mkHLL 16 (replicate 16 0%Z) 0.673), out).
Proof.
  rewrite init_power_of_two by (exists 4%Z; split; [lia|reflexivity]).
  reflexivity.
Qed.

(** The estimate of the example: 14 of the 16 registers are still 0, so
    linear counting gives [16 * ln (16 / 14)], between 2 and 3. *)
Lemma example_estimate :
  exists v, estimate example_state = (Ok v, example_state) /\ 2 <= v < 3.
Proof.
  rewrite (estimate_run example_state); [|reflexivity|simpl; lia].
  unfold estimate_steps.
  assert (Hcorr : Spec.corrected example_state = 16 * ln (16 / 14)).
  { unfold Spec.corrected, Spec.small_range, Spec.raw, example_state.
    cbn [alpha_m number_of_buckets buckets].
    change (Spec.zero_buckets _) with 14%Z.
    replace (Spec.harmonic_denominator _) with 14.5 by (simpl; lra).
    destruct (Rle_dec _ _) as [_|Hgt]; [|exfalso; apply Hgt; lra].
    destruct (Z_lt_dec 0 14); [reflexivity|lia]. }
  rewrite Hcorr.
  pose proof (ln_above (16 / 14) ltac:(lra)) as Hlo.
  pose proof (ln_below (16 / 14) ltac:(lra) ltac:(lra)) as Hhi.
  replace (1 - / (16 / 14)) with (/ 8) in Hlo by lra.
  exists (16 * ln (16 / 14)). split; [|lra].
  f_equal. apply large_range_below. lra.
Qed.

End ExampleRun.

(** X17. Run as a script, the module prints one line,
    [Estimated Cardinality: 2], and ends without an exception: the second
    "hello" is not counted. *)
Theorem main_prints (out : stdout) :
  main out = (Ok tt, out ++ ["Estimated Cardinality: 2"%string]).
Proof.
  set (h0 := mkHLL 16 (replicate 16 0) 0.673%R).
  pose proof fresh_16_constructed as Hc0. fold h0 in Hc0.
  destruct (added_constructed h0 "hello" Hc0) as (Hc1 & _).
  destruct (added_constructed _ "world" Hc1) as (Hc2 & _).
  destruct example_estimate as (v & Hv & Hbounds).
  assert (Hlen : call py_len example_state out
                 = (Ok (2, example_state), out)).
  { unfold call, py_len, __len__. rewrite !bind_run, Hv. unfold ret at 1.
    replace (py_int v) with 2 by (symmetry; apply py_int_between; simpl; lra).
    reflexivity. }
  pose proof example_state_reached as Hstate. fold h0 in Hstate.
  pose proof (init_16 out) as Hinit. fold h0 in Hinit.
  pose proof (call_added h0 "hello" out Hc0) as Hcall0.
  pose proof (call_added _ "world" out Hc1) as Hcall1.
  pose proof (call_added _ "hello" out Hc2) as Hcall2.
  rewrite Hstate in Hcall2.
  set (h1 := added h0 "hello") in *. set (h2 := added h1 "world") in *.
  clearbody h2. clearbody h1. clearbody h0.
  unfold main.
  rewrite (bind_ok _ _ _ _ _ Hinit).
  rewrite (bind_ok _ _ _ _ _ Hcall0). cbn [snd].
  rewrite (bind_ok _ _ _ _ _ Hcall1). cbn [snd].
  rewrite (bind_ok _ _ _ _ _ Hcall2). cbn [snd].
  rewrite (bind_ok _ _ _ _ _ Hlen). reflexivity.
Qed.
